(** * FuseTransposeBrgemm: folding a Transpose into the port layout of a Brgemm

    A shallow embedding of
    [src/common/snippets/src/pass/fuse_transpose_brgemm.cpp]
    (namespace [ov::snippets::pass]) and the properties its specification
    states about it.

    Layout of the development:
    - [Outcome]    results of code that may hit [OPENVINO_ASSERT];
    - [Order]      [is_supported_transpose_order] (lines 42-45);
    - [Layout]     the [fuse_layouts] lambda (lines 72-86);
    - [IR]         the operation graph as an arena of nodes;
    - [Pass]       [is_supported_transpose], the pattern and the callback;
    - [Effect]     what one call leaves on a port, for the statements;
    - [Engine]     the scan that drives the callback;
    - [Samples]    small graphs to run the definitions on;
    then the properties, in the order order check, composer, graph,
    callback, scan. *)

From Stdlib Require Import ZArith NArith Lia String.
From stdpp Require Import base tactics option list numbers.

Open Scope Z_scope.

(** ** Outcomes *)

Module Outcome.

(** A call either returns, or stops in [OPENVINO_ASSERT] with the message
    of the assertion, or leaves the behaviour the C++ standard defines (an
    index past the end of a vector, a null pointer dereferenced). *)
Inductive outcome (A : Type) : Type :=
  | Ok (a : A)
  | AssertionFailed (msg : string)
  | Undefined.

Arguments Ok {A} a.
Arguments AssertionFailed {A} msg.
Arguments Undefined {A}.

Global Instance outcome_ret : MRet outcome := fun A a => Ok a.

Global Instance outcome_bind : MBind outcome := fun A B k m =>
  match m with
  | Ok a => k a
  | AssertionFailed msg => AssertionFailed msg
  | Undefined => Undefined
  end.

Global Instance outcome_fmap : FMap outcome := fun A B f m =>
  match m with
  | Ok a => Ok (f a)
  | AssertionFailed msg => AssertionFailed msg
  | Undefined => Undefined
  end.

(** A pointer or an index that the code dereferences unchecked. *)
Definition deref {A} (o : option A) : outcome A :=
  match o with
  | Some a => Ok a
  | None => Undefined
  end.

(** A call on every element of a vector, from the first to the last. *)
Fixpoint map_outcome {A B} (f : A -> outcome B) (l : list A) : outcome (list B) :=
  match l with
  | [] => Ok []
  | a :: l' => b ← f a; bs ← map_outcome f l'; Ok (b :: bs)
  end.

Definition returns {A} (m : outcome A) : Prop := exists a, m = Ok a.

Definition aborts {A} (m : outcome A) : Prop := exists msg, m = AssertionFailed msg.

End Outcome.

Export Outcome.

(** ** The order of a transpose (lines 42-45) *)

Module Order.

(** [static_cast<int32_t>]: the value modulo [2^32], read as two's
    complement. *)
Definition int32_wrap (z : Z) : Z := (z + 2 ^ 31) mod 2 ^ 32 - 2 ^ 31.

(** Subtraction of [int32_t]; a result out of range wraps around. *)
Definition int32_sub (a b : Z) : Z := int32_wrap (a - b).

Definition is_int32 (z : Z) : Prop := - 2 ^ 31 <= z < 2 ^ 31.

(** [std::vector::empty]. *)
Definition empty {A} (v : list A) : bool :=
  match v with
  | [] => true
  | _ :: _ => false
  end.

(** [std::vector<int32_t>::back]; the caller guards it with [empty]. *)
Definition back (v : list Z) : Z := List.last v 0.

(** [std::vector::size], a [size_t]. *)
Definition size {A} (v : list A) : Z := Z.of_nat (length v).

(** Lines 42-45.
    [return !order.empty() && order.back() == (static_cast<int32_t>(size) - 1);] *)
Definition is_supported_transpose_order (order : list Z) : bool :=
  let size := size order in
  negb (empty order) && (back order =? int32_sub (int32_wrap size) 1).

(** The orders the data model speaks of: every value of [0, rank) once,
    held in a vector of [int32_t]. *)
Definition is_permutation_order (p : list Z) : Prop :=
  p ≡ₚ (Z.of_nat <$> seq 0 (length p)) /\ Forall is_int32 p.

End Order.

(** ** The layout composer (lines 72-86) *)

Module Layout.

(** The messages of the two assertions.  A layout is a
    [std::vector<size_t>], here a [list N]. *)
Definition msg_equal_ranks : string := "Fused layouts must have equal ranks".
Definition msg_exceed_size : string := "Fused layouts values mustn't exceed layout size".

(** The loop of lines 81-84, over the indices still to visit;
    [fused_layout] is the vector being filled. *)
Fixpoint fuse_loop (layout_1 layout_2 : list N) (todo : list nat) (fused_layout : list N)
  : outcome (list N) :=
  match todo with
  | [] => Ok fused_layout
  | i :: todo' =>
      l2i ← deref (layout_2 !! i);
      if (l2i <? N.of_nat (length layout_1))%N then
        v ← deref (layout_1 !! N.to_nat l2i);
        fuse_loop layout_1 layout_2 todo' (<[i := v]> fused_layout)
      else AssertionFailed msg_exceed_size
  end.

(** Lines 72-86. *)
Definition fuse_layouts (layout_1 layout_2 : list N) : outcome (list N) :=
  if Order.empty layout_1 then Ok layout_2
  else if Order.empty layout_2 then Ok layout_1
  else if (length layout_1 =? length layout_2)%nat then
    fuse_loop layout_1 layout_2 (seq 0 (length layout_1)) (replicate (length layout_1) 0%N)
  else AssertionFailed msg_equal_ranks.

(** A layout is valid when it lists every value of [0, rank) once. *)
Definition is_permutation (l : list N) : Prop :=
  l ≡ₚ (N.of_nat <$> seq 0 (length l)).

(** The entry [l[v]] read as a total function, for statements. *)
Definition at_index (l : list N) (v : N) : N := nth (N.to_nat v) l 0%N.

End Layout.

(** ** The operation graph *)

Module IR.

(** [VectorDims]: a shape, one size per dimension. *)
Abbreviation VectorDims := (list N).

(** Modelled from the spec: [lowered::PortDescriptor] is declared in
    [snippets/lowered/port_descriptor.hpp], which is not part of the
    sources at hand.  The data model gives it a shape and a layout, read
    and written in place. *)
Record PortDescriptor := mkPort {
  get_shape : VectorDims;
  get_layout : list N
}.

Definition set_shape (tensor : VectorDims) (d : PortDescriptor) : PortDescriptor :=
  {| get_shape := tensor; get_layout := get_layout d |}.

Definition set_layout (layout : list N) (d : PortDescriptor) : PortDescriptor :=
  {| get_shape := get_shape d; get_layout := layout |}.

(** Nodes live in an arena and are named by their index in it. *)
Abbreviation node_id := nat.

(** [Output<Node>]: a node and the index of one of its outputs. *)
Abbreviation Output := (nat * nat)%type.

(** [Input<Node>]: a node and the index of one of its inputs. *)
Abbreviation Input := (nat * nat)%type.

(** The operators the pass tells apart by [as_type_ptr]; a [Constant]
    carries its elements. *)
Inductive OpKind :=
  | Param
  | Constant (data : list Z)
  | Transpose
  | Brgemm
  | Result
  | Other.

(** Modelled from the spec: [ov::Node], [Input<Node>] and [Output<Node>]
    are declared in [openvino/core/node.hpp] and its neighbours, which are
    not part of the sources at hand.  In the data model a node has "a
    fixed-size ordered list of input ports and output ports", and every
    port has one descriptor of its own.  An input port is the value it
    consumes and its descriptor. *)
Record InputPort := mkIn {
  source : Output;
  in_port : PortDescriptor
}.

(** An output port: the shape of the tensor it produces, as
    [utils::pshape_to_vdims(get_partial_shape())] reads it, and its
    descriptor. *)
Record OutputPort := mkOut {
  tensor_shape : VectorDims;
  out_port : PortDescriptor
}.

Record Node := mkNode {
  op : OpKind;
  inputs : list InputPort;
  outputs : list OutputPort
}.

Abbreviation Graph := (list Node).

Definition is_transpose (nd : Node) : bool :=
  match op nd with Transpose => true | _ => false end.

Definition is_brgemm (nd : Node) : bool :=
  match op nd with Brgemm => true | _ => false end.

Definition is_result (nd : Node) : bool :=
  match op nd with Result => true | _ => false end.

(** [as_type_ptr<Constant>]: the elements when the node is a constant. *)
Definition as_constant (nd : Node) : option (list Z) :=
  match op nd with Constant data => Some data | _ => None end.

Definition is_constant (nd : Node) : bool :=
  match as_constant nd with Some _ => true | None => false end.

(** [get_node_shared_ptr]. *)
Definition get_node (g : Graph) (n : node_id) : outcome Node := deref (g !! n).

(** [input_value(i)] / [input(i).get_source_output()]. *)
Definition input_value (nd : Node) (i : nat) : outcome Output :=
  source <$> deref (inputs nd !! i).

(** [get_input_node_shared_ptr(i)]. *)
Definition get_input_node (g : Graph) (nd : Node) (i : nat) : outcome Node :=
  v ← input_value nd i; get_node g v.1.

(** [utils::pshape_to_vdims(v.get_partial_shape())]. *)
Definition get_vdims (g : Graph) (v : Output) : outcome VectorDims :=
  nd ← get_node g v.1; tensor_shape <$> deref (outputs nd !! v.2).

Definition with_source (v : Output) (p : InputPort) : InputPort :=
  {| source := v; in_port := in_port p |}.

Definition with_in_port (f : PortDescriptor -> PortDescriptor) (p : InputPort) : InputPort :=
  {| source := source p; in_port := f (in_port p) |}.

Definition with_out_port (f : PortDescriptor -> PortDescriptor) (p : OutputPort) : OutputPort :=
  {| tensor_shape := tensor_shape p; out_port := f (out_port p) |}.

Definition with_tensor_shape (s : VectorDims) (p : OutputPort) : OutputPort :=
  {| tensor_shape := s; out_port := out_port p |}.

Definition on_inputs (f : list InputPort -> list InputPort) (nd : Node) : Node :=
  {| op := op nd; inputs := f (inputs nd); outputs := outputs nd |}.

Definition on_outputs (f : list OutputPort -> list OutputPort) (nd : Node) : Node :=
  {| op := op nd; inputs := inputs nd; outputs := f (outputs nd) |}.

(** Modelled from the spec: the graph mutation primitive
    "replace_input(node, index, new_value)", which the code reaches as
    [in.replace_source_output(v)] and as [node->set_argument(i, v)]: the
    input [i] now consumes [v]. *)
Definition replace_source_output (g : Graph) (i : Input) (v : Output) : Graph :=
  alter (on_inputs (alter (with_source v) i.2)) i.1 g.

(** Modelled from the spec: "get_descriptor(value)" has "mutable
    reference semantics: mutations are visible to all future readers of
    that value".  A write through the pointer that
    [get_port_descriptor_ptr] returns changes the port in the graph. *)
Definition update_in_port (g : Graph) (i : Input) (f : PortDescriptor -> PortDescriptor) : Graph :=
  alter (on_inputs (alter (with_in_port f) i.2)) i.1 g.

Definition update_out_port (g : Graph) (v : Output) (f : PortDescriptor -> PortDescriptor) : Graph :=
  alter (on_outputs (alter (with_out_port f) v.2)) v.1 g.

Definition set_tensor_shape (g : Graph) (v : Output) (s : VectorDims) : Graph :=
  alter (on_outputs (alter (with_tensor_shape s) v.2)) v.1 g.

(** [node->input(i)] and [node->output(i)] as the ports they name. *)
Definition input_port (g : Graph) (i : Input) : option InputPort :=
  nd ← g !! i.1; inputs nd !! i.2.

Definition output_port (g : Graph) (v : Output) : option OutputPort :=
  nd ← g !! v.1; outputs nd !! v.2.

(** The inputs of one node that consume [v]. *)
Definition node_targets (v : Output) (n : node_id) (nd : Node) : list Input :=
  omap (fun x => x)
       (imap (fun i p => if decide (source p = v) then Some (n, i) else None) (inputs nd)).

(** Modelled from the spec: the consumers that
    "redirect_consumers(old_value, new_value)" moves, which the code reads
    with [v.get_target_inputs()]: every input in the graph that consumes
    [v]. *)
Definition get_target_inputs (g : Graph) (v : Output) : list Input :=
  mjoin (imap (node_targets v) g).

(** The arena is well formed when every input consumes an output of an
    earlier node (the indices are a topological order of the graph), a
    Transpose has its two inputs and one output, and a Brgemm has one
    output. *)
Definition wf_input (g : Graph) (n : node_id) (p : InputPort) : bool :=
  bool_decide ((source p).1 < n)%nat &&
  match g !! (source p).1 with
  | Some src => bool_decide ((source p).2 < length (outputs src))%nat
  | None => false
  end.

Definition wf_node (g : Graph) (n : node_id) (nd : Node) : bool :=
  forallb (wf_input g n) (inputs nd) &&
  match op nd with
  | Transpose => bool_decide (length (inputs nd) = 2%nat) && bool_decide (length (outputs nd) = 1%nat)
  | Brgemm => bool_decide (length (outputs nd) = 1%nat)
  | _ => true
  end.

Definition wf (g : Graph) : bool :=
  forallb (fun x => x) (imap (wf_node g) g).

End IR.

(** ** The pass *)

Module Pass.

Import Order Layout IR.

(** Modelled from the spec: [Constant::cast_vector] is declared in
    [openvino/op/constant.hpp], which is not part of the sources at hand.
    The data model reads the constant of a Transpose as an ordered
    sequence of integers; the elements are converted one by one as
    [static_cast] does. *)
Definition cast_vector_int32 (data : list Z) : list Z := int32_wrap <$> data.

Definition cast_vector_size_t (data : list Z) : list N :=
  (fun z => Z.to_N (z mod 2 ^ 64)) <$> data.

(** Lines 30-40. *)
Definition is_supported_transpose (g : Graph) (transpose_out : Output) : outcome bool :=
  transpose ← get_node g transpose_out.1;
  if negb (is_transpose transpose) then Ok false
  else
    order ← get_input_node g transpose 1;
    match as_constant order with
    | None => Ok false
    | Some data => Ok (is_supported_transpose_order (cast_vector_int32 data))
    end.

(** A predicate handed to [wrap_type] holds when it returns [true]. *)
Definition holds (m : outcome bool) : bool :=
  match m with Ok b => b | _ => false end.

(** Lines 49-51, [m_transpose]: a Transpose over any input and a
    Constant, accepted by [is_supported_transpose].  [wrap_type] and
    [any_input] belong to the pattern-matching primitive, which is not part
    of the sources at hand; a pattern is read as the specification
    describes the three shapes: the node has the type named, its inputs
    match the patterns listed, in their order, and the predicate holds. *)
Definition m_transpose (g : Graph) (v : Output) : bool :=
  match g !! v.1 with
  | Some nd =>
      match op nd, inputs nd with
      | Transpose, [_; c] =>
          match g !! (source c).1 with
          | Some cn => is_constant cn && holds (is_supported_transpose g v)
          | None => false
          end
      | _, _ => false
      end
  | None => false
  end.

(** Line 54, [m_brgemm_in0]. *)
Definition m_brgemm_in0 (g : Graph) (v : Output) : bool :=
  match g !! v.1 with
  | Some nd =>
      match op nd, inputs nd with
      | Brgemm, [a; _] => m_transpose g (source a)
      | _, _ => false
      end
  | None => false
  end.

(** Line 57, [m_brgemm_in1]. *)
Definition m_brgemm_in1 (g : Graph) (v : Output) : bool :=
  match g !! v.1 with
  | Some nd =>
      match op nd, inputs nd with
      | Brgemm, [_; b] => m_transpose g (source b)
      | _, _ => false
      end
  | None => false
  end.

(** Lines 60-61, [m_brgemm_out]. *)
Definition m_brgemm_out (g : Graph) (v : Output) : bool :=
  match g !! v.1 with
  | Some nd =>
      match op nd, inputs nd with
      | Brgemm, [_; _] => true
      | _, _ => false
      end
  | None => false
  end.

(** Lines 62-63, [m_transpose2]. *)
Definition m_transpose2 (g : Graph) (v : Output) : bool :=
  match g !! v.1 with
  | Some nd =>
      match op nd, inputs nd with
      | Transpose, [a; c] =>
          m_brgemm_out g (source a) &&
          match g !! (source c).1 with
          | Some cn => is_constant cn && holds (is_supported_transpose g v)
          | None => false
          end
      | _, _ => false
      end
  | None => false
  end.

(** Lines 65-66, [m_brgemm_or_transpose]. *)
Definition m_brgemm_or_transpose (g : Graph) (v : Output) : bool :=
  m_brgemm_in0 g v || m_brgemm_in1 g v || m_transpose2 g v.

(** Lines 100-102: every consumer of [old] now consumes [new]. *)
Definition replace_consumers (g : Graph) (old new : Output) : Graph :=
  foldl (fun g' i => replace_source_output g' i new) g (get_target_inputs g old).

(** Lines 89-103, the body of [if (!brgemm)]: the matched root is a
    Transpose on the output of a Brgemm.  Returns the Brgemm. *)
Definition fuse_output (g : Graph) (m : Output) : outcome (node_id * Graph) :=
  root ← get_node g m.1;
  brgemm_in ← input_value root 0;
  let brgemm := brgemm_in.1 in
  brgemm_node ← get_node g brgemm;
  if negb (is_brgemm brgemm_node) then Undefined
  else
    let brgemm_out : Output := (brgemm, 0%nat) in
    let transpose_out := m in
    const_order ← as_constant <$> get_input_node g root 1;
    original_port ← out_port <$> deref (outputs brgemm_node !! 0%nat);
    vdims ← get_vdims g transpose_out;
    let g := update_out_port g brgemm_out (set_shape vdims) in
    let out_layout := get_layout original_port in
    transpose_order ← cast_vector_size_t <$> deref const_order;
    fused ← fuse_layouts out_layout transpose_order;
    let g := update_out_port g brgemm_out (set_layout fused) in
    Ok (brgemm, replace_consumers g transpose_out brgemm_out).

(** Lines 106-118, one turn of the loop over the inputs of the Brgemm. *)
Definition fuse_input (brgemm : node_id) (g : Graph) (i : nat) : outcome Graph :=
  brgemm_node ← get_node g brgemm;
  in_value ← input_value brgemm_node i;
  supported ← is_supported_transpose g in_value;
  if (supported : bool) then
    transpose ← get_node g in_value.1;
    const_order ← as_constant <$> get_input_node g transpose 1;
    data_in ← input_value transpose 0;
    let g := replace_source_output g (brgemm, i) data_in in
    original_port ← in_port <$> deref (inputs brgemm_node !! i);
    let in_layout := get_layout original_port in
    transpose_order ← cast_vector_size_t <$> deref const_order;
    transpose ← get_node g in_value.1;
    vdims ← (v ← input_value transpose 0; get_vdims g v);
    let g := update_in_port g (brgemm, i) (set_shape vdims) in
    fused ← fuse_layouts transpose_order in_layout;
    Ok (update_in_port g (brgemm, i) (set_layout fused))
  else Ok g.

(** Lines 105-119. *)
Fixpoint fuse_inputs_from (brgemm : node_id) (g : Graph) (todo : list nat) : outcome Graph :=
  match todo with
  | [] => Ok g
  | i :: todo' => g' ← fuse_input brgemm g i; fuse_inputs_from brgemm g' todo'
  end.

Definition fuse_inputs (brgemm : node_id) (g : Graph) : outcome Graph :=
  brgemm_node ← get_node g brgemm;
  fuse_inputs_from brgemm g (seq 0 (length (inputs brgemm_node))).

(** The shapes of the tensors a node consumes. *)
Fixpoint input_shapes (g : Graph) (ps : list InputPort) : outcome (list VectorDims) :=
  match ps with
  | [] => Ok []
  | p :: ps' => s ← get_vdims g (source p); ss ← input_shapes g ps'; Ok (s :: ss)
  end.

Section Callback.

(** [Brgemm::validate_and_infer_types] is declared in
    [snippets/op/brgemm.hpp]; the shape it infers for the output, from the
    node with its port descriptors and the shapes of its inputs, is a
    parameter of the development. *)
Variable infer_output_shape : Node -> list VectorDims -> outcome VectorDims.

(** Modelled from the spec: the entry point "recomputes and stores the
    node's output shape/type from its current inputs" and "fails only via
    a fatal internal-consistency error". *)
Definition validate_and_infer_types (brgemm : node_id) (g : Graph) : outcome Graph :=
  brgemm_node ← get_node g brgemm;
  in_shapes ← input_shapes g (inputs brgemm_node);
  s ← infer_output_shape brgemm_node in_shapes;
  Ok (set_tensor_shape g (brgemm, 0%nat) s).

(** Lines 68-125. *)
Definition callback (g : Graph) (m : Output) : outcome (bool * Graph) :=
  root ← get_node g m.1;
  '(brgemm, g) ← (if is_brgemm root then Ok (m.1, g) else fuse_output g m);
  g ← fuse_inputs brgemm g;
  g ← validate_and_infer_types brgemm g;
  Ok (true, g).

End Callback.

End Pass.

(** ** What one call does to a port *)

Module Effect.

Import Order Layout IR Pass.

(** The Brgemm that the callback works on (lines 70 and 90): the matched
    root, or the producer of its first input. *)
Definition matched_brgemm (g : Graph) (m : Output) : option node_id :=
  root ← g !! m.1;
  if is_brgemm root then Some m.1
  else (fun p => (source p).1) <$> inputs root !! 0%nat.

(** What lines 106-118 leave in the input port [p] of the Brgemm, read
    off the graph [g] in which the loop started. *)
Definition fused_port (g : Graph) (p : InputPort) : outcome InputPort :=
  supported ← is_supported_transpose g (source p);
  if (supported : bool) then
    transpose ← get_node g (source p).1;
    const_order ← as_constant <$> get_input_node g transpose 1;
    data_in ← input_value transpose 0;
    transpose_order ← cast_vector_size_t <$> deref const_order;
    vdims ← get_vdims g data_in;
    fused ← fuse_layouts transpose_order (get_layout (in_port p));
    Ok (mkIn data_in (mkPort vdims fused))
  else Ok p.

(** The constant on the second input of the Transpose [n], and the value
    on its first input. *)
Definition transpose_order (g : Graph) (n : node_id) : option (list Z) :=
  tr ← g !! n;
  if is_transpose tr then c ← inputs tr !! 1%nat; cn ← g !! (source c).1; as_constant cn
  else None.

Definition transpose_data (g : Graph) (n : node_id) : option Output :=
  tr ← g !! n;
  if is_transpose tr then source <$> inputs tr !! 0%nat else None.


(** Two graphs with the same nodes before [b]. *)
Definition agree_below (b : node_id) (g g' : Graph) : Prop :=
  forall n, (n < b)%nat -> g' !! n = g !! n.

(** Every consumer of [old] consumes [new]: lines 100-102 at once. *)
Definition redirect (old new : Output) (nd : Node) : Node :=
  on_inputs (fmap (fun p => if decide (source p = old) then with_source new p else p)) nd.

End Effect.

(** ** The scan that drives the callback *)

Module Engine.

Import IR Pass.

(** The nodes that a node consumes. *)
Definition sources (nd : Node) : list node_id := (fun p => (source p).1) <$> inputs nd.

(** Modelled from the spec: a fused Transpose is "destroyed (detached from
    the graph)"; the code has no call for it, the node leaves the graph
    when nothing consumes it any more.  The graph the engine scans is made
    of the nodes still in use: the results and what they consume, directly
    or not.  This is one step of the sweep from the last node to the
    first: a result, or a node that a node in use consumes, is in use, and
    so are its sources. *)
Definition visit (needed : list node_id) (x : node_id * Node) : list node_id :=
  if is_result x.2 || bool_decide (x.1 ∈ needed)
  then x.1 :: sources x.2 ++ needed
  else needed.

(** The nodes in use, by the sweep over the whole arena. *)
Definition live_nodes (g : Graph) : list node_id :=
  foldl visit [] (reverse (imap pair g)).

Definition is_live (g : Graph) (n : node_id) : bool := bool_decide (n ∈ live_nodes g).

(** Modelled from the spec: "a match triggers if any one of the three
    structural shapes is found anywhere in the graph".  A candidate is a
    node in use on whose first output the pattern matches. *)
Definition candidate (g : Graph) (n : node_id) : bool :=
  is_live g n && m_brgemm_or_transpose g (n, 0%nat).

Definition find_match (g : Graph) : option node_id :=
  List.find (candidate g) (seq 0 (length g)).

(** The sum of the indices of the nodes that the inputs of the graph
    consume: every call of the callback on a match makes it smaller. *)
Definition node_weight (nd : Node) : nat := sum_list (sources nd).

Definition weight (g : Graph) : nat := sum_list (node_weight <$> g).

Section Run.

Variable infer_output_shape : Node -> list VectorDims -> outcome VectorDims.

Definition count (mutated : bool) : nat := if mutated then 1%nat else 0%nat.

(** Modelled from the spec: the matching engine ([MatcherPass],
    [register_matcher]) is not part of the sources at hand.  It "repeatedly
    scans the graph for any of the three pattern shapes; on each match it
    invokes the Rewrite Callback, which mutates the graph and metadata and
    returns success/failure to the engine, which then continues scanning
    until no further matches exist".  The scan is bounded by [fuel]
    callbacks: [None] when the bound is reached, otherwise the graph at
    the fixed point with the number of mutations the callback reported, or
    the failure that stopped it. *)
Fixpoint run (fuel : nat) (g : Graph) : option (outcome (nat * Graph)) :=
  match find_match g with
  | None => Some (Ok (0%nat, g))
  | Some root =>
      match fuel with
      | O => None
      | S fuel' =>
          match callback infer_output_shape g (root, 0%nat) with
          | Ok (mutated, g') =>
              match run fuel' g' with
              | Some (Ok (k, g'')) => Some (Ok ((count mutated + k)%nat, g''))
              | r => r
              end
          | AssertionFailed msg => Some (AssertionFailed msg)
          | Undefined => Some Undefined
          end
      end
  end.

End Run.

End Engine.

(** ** Sample graphs *)

Module Samples.

Import IR.

(** A port as it is before any fusion: the shape of the tensor and no
    layout recorded. *)
Definition plain (s : VectorDims) : PortDescriptor := mkPort s [].

Definition produces (s : VectorDims) : list OutputPort := [mkOut s (plain s)].

Definition consumes (n : node_id) (s : VectorDims) : InputPort := mkIn (n, 0%nat) (plain s).

(** Both inputs of the Brgemm (node 6) come from a Transpose with the
    order [1, 0, 2]. *)
Definition both_inputs_transposed : Graph :=
  [ mkNode Param [] (produces [4; 8; 16]%N);
    mkNode (Constant [1; 0; 2]) [] (produces [3]%N);
    mkNode Transpose [consumes 0 [4; 8; 16]%N; consumes 1 [3]%N] (produces [8; 4; 16]%N);
    mkNode Param [] (produces [16; 8; 32]%N);
    mkNode (Constant [1; 0; 2]) [] (produces [3]%N);
    mkNode Transpose [consumes 3 [16; 8; 32]%N; consumes 4 [3]%N] (produces [8; 16; 32]%N);
    mkNode Brgemm [consumes 2 [8; 4; 16]%N; consumes 5 [8; 16; 32]%N] (produces [8; 4; 32]%N);
    mkNode Result [consumes 6 [8; 4; 32]%N] [] ].

(** The output of the Brgemm (node 2), of shape [8, 4, 16] and with no
    layout recorded, feeds a Transpose (node 4) with the order [1, 0, 2],
    which two nodes consume. *)
Definition output_transposed : Graph :=
  [ mkNode Param [] (produces [8; 4; 32]%N);
    mkNode Param [] (produces [8; 32; 16]%N);
    mkNode Brgemm [consumes 0 [8; 4; 32]%N; consumes 1 [8; 32; 16]%N] (produces [8; 4; 16]%N);
    mkNode (Constant [1; 0; 2]) [] (produces [3]%N);
    mkNode Transpose [consumes 2 [8; 4; 16]%N; consumes 3 [3]%N] (produces [4; 8; 16]%N);
    mkNode Other [consumes 4 [4; 8; 16]%N] (produces [4; 8; 16]%N);
    mkNode Result [consumes 5 [4; 8; 16]%N] [];
    mkNode Result [consumes 4 [4; 8; 16]%N] [] ].

(** The same with the order [0, 2, 1], which moves the last dimension. *)
Definition output_transposed_021 : Graph :=
  [ mkNode Param [] (produces [8; 4; 32]%N);
    mkNode Param [] (produces [8; 32; 16]%N);
    mkNode Brgemm [consumes 0 [8; 4; 32]%N; consumes 1 [8; 32; 16]%N] (produces [8; 4; 16]%N);
    mkNode (Constant [0; 2; 1]) [] (produces [3]%N);
    mkNode Transpose [consumes 2 [8; 4; 16]%N; consumes 3 [3]%N] (produces [8; 16; 4]%N);
    mkNode Other [consumes 4 [8; 16; 4]%N] (produces [8; 16; 4]%N);
    mkNode Result [consumes 5 [8; 16; 4]%N] [];
    mkNode Result [consumes 4 [8; 16; 4]%N] [] ].

(** Two transposes in a row on input 0 of the Brgemm (node 6), and one on
    its output. *)
Definition chain : Graph :=
  [ mkNode Param [] (produces [4; 8; 32]%N);
    mkNode (Constant [1; 0; 2]) [] (produces [3]%N);
    mkNode Transpose [consumes 0 [4; 8; 32]%N; consumes 1 [3]%N] (produces [8; 4; 32]%N);
    mkNode (Constant [1; 0; 2]) [] (produces [3]%N);
    mkNode Transpose [consumes 2 [8; 4; 32]%N; consumes 3 [3]%N] (produces [4; 8; 32]%N);
    mkNode Param [] (produces [4; 32; 16]%N);
    mkNode Brgemm [consumes 4 [4; 8; 32]%N; consumes 5 [4; 32; 16]%N] (produces [4; 8; 16]%N);
    mkNode (Constant [1; 0; 2]) [] (produces [3]%N);
    mkNode Transpose [consumes 6 [4; 8; 16]%N; consumes 7 [3]%N] (produces [8; 4; 16]%N);
    mkNode Result [consumes 8 [8; 4; 16]%N] [] ].

(** A shape inference to run the callback with: the output keeps the
    shape it has. *)
Definition keep_shape (nd : Node) (in_shapes : list VectorDims) : outcome VectorDims :=
  tensor_shape <$> deref (outputs nd !! 0%nat).

(** The graph a call has left, when it returned. *)
Definition graph_after (o : outcome (bool * Graph)) : Graph :=
  match o with
  | Ok (_, g) => g
  | _ => []
  end.

End Samples.

(** ** More sample graphs *)

Module MoreSamples.

Import IR Samples.

(** A shape inference that always returns: the shape of the first input. *)
Definition first_shape (nd : Node) (in_shapes : list VectorDims) : outcome VectorDims :=
  Ok (match in_shapes with s :: _ => s | [] => [] end).

(** [output_transposed] with a layout of rank 2 recorded on the output
    port of the Brgemm, against an order of rank 3. *)
Definition output_rank_mismatch : Graph :=
  [ mkNode Param [] (produces [8; 4; 32]%N);
    mkNode Param [] (produces [8; 32; 16]%N);
    mkNode Brgemm [consumes 0 [8; 4; 32]%N; consumes 1 [8; 32; 16]%N]
           [mkOut [8; 4; 16]%N (mkPort [8; 4; 16]%N [1; 0]%N)];
    mkNode (Constant [1; 0; 2]) [] (produces [3]%N);
    mkNode Transpose [consumes 2 [8; 4; 16]%N; consumes 3 [3]%N] (produces [4; 8; 16]%N);
    mkNode Result [consumes 4 [4; 8; 16]%N] [] ].

(** A Brgemm (node 3) whose first input comes from a Transpose of rank 3
    and carries a layout of rank 2. *)
Definition input_rank_mismatch : Graph :=
  [ mkNode Param [] (produces [4; 8; 16]%N);
    mkNode (Constant [1; 0; 2]) [] (produces [3]%N);
    mkNode Transpose [consumes 0 [4; 8; 16]%N; consumes 1 [3]%N] (produces [8; 4; 16]%N);
    mkNode Brgemm [mkIn (2%nat, 0%nat) (mkPort [8; 4; 16]%N [0; 1]%N); consumes 0 [4; 8; 16]%N]
           (produces [8; 4; 4]%N);
    mkNode Result [consumes 3 [8; 4; 4]%N] [] ].

(** A Brgemm (node 2) fed by two parameters: nothing to fuse. *)
Definition plain_brgemm : Graph :=
  [ mkNode Param [] (produces [8; 4; 32]%N);
    mkNode Param [] (produces [8; 32; 16]%N);
    mkNode Brgemm [consumes 0 [8; 4; 32]%N; consumes 1 [8; 32; 16]%N] (produces [8; 4; 16]%N);
    mkNode Result [consumes 2 [8; 4; 16]%N] [] ].

End MoreSamples.

(** ** Sample graphs with layouts recorded, and with malformed orders *)

Module LayoutSamples.

Import IR Samples.

(** [both_inputs_transposed] with the layout [2, 0, 1] recorded on the
    first input port of the Brgemm (node 6). *)
Definition input_with_layout : Graph :=
  [ mkNode Param [] (produces [4; 8; 16]%N);
    mkNode (Constant [1; 0; 2]) [] (produces [3]%N);
    mkNode Transpose [consumes 0 [4; 8; 16]%N; consumes 1 [3]%N] (produces [8; 4; 16]%N);
    mkNode Param [] (produces [16; 8; 32]%N);
    mkNode (Constant [1; 0; 2]) [] (produces [3]%N);
    mkNode Transpose [consumes 3 [16; 8; 32]%N; consumes 4 [3]%N] (produces [8; 16; 32]%N);
    mkNode Brgemm [mkIn (2%nat, 0%nat) (mkPort [8; 4; 16]%N [2; 0; 1]%N);
                   consumes 5 [8; 16; 32]%N] (produces [8; 4; 32]%N);
    mkNode Result [consumes 6 [8; 4; 32]%N] [] ].

(** [output_transposed] with the layout [0, 2, 1] recorded on the output
    port of the Brgemm (node 2). *)
Definition output_with_layout : Graph :=
  [ mkNode Param [] (produces [8; 4; 32]%N);
    mkNode Param [] (produces [8; 32; 16]%N);
    mkNode Brgemm [consumes 0 [8; 4; 32]%N; consumes 1 [8; 32; 16]%N]
           [mkOut [8; 4; 16]%N (mkPort [8; 4; 16]%N [0; 2; 1]%N)];
    mkNode (Constant [1; 0; 2]) [] (produces [3]%N);
    mkNode Transpose [consumes 2 [8; 4; 16]%N; consumes 3 [3]%N] (produces [4; 8; 16]%N);
    mkNode Other [consumes 4 [4; 8; 16]%N] (produces [4; 8; 16]%N);
    mkNode Result [consumes 5 [4; 8; 16]%N] [];
    mkNode Result [consumes 4 [4; 8; 16]%N] [] ].



End LayoutSamples.

(** * Properties *)

Import Order Layout IR Pass Effect Engine.

(** ** The order check *)

Section OrderFacts.

Lemma int32_wrap_id z : is_int32 z -> int32_wrap z = z.
Proof.
  unfold is_int32, int32_wrap. intros H.
  rewrite Z.mod_small by lia. lia.
Qed.

(** The size of a vector of at most [2^31] elements, converted to
    [int32_t] and decreased by one, is the index of its last element. *)
Lemma last_index_int32 (n : Z) :
  0 < n <= 2 ^ 31 -> int32_sub (int32_wrap n) 1 = n - 1.
Proof.
  intros Hn. unfold int32_sub.
  destruct (decide (n = 2 ^ 31)) as [-> | Hne].
  - reflexivity.
  - rewrite (int32_wrap_id n) by (unfold is_int32; lia).
    apply int32_wrap_id. unfold is_int32. lia.
Qed.

Lemma back_last (v : list Z) (x : Z) : list.last v = Some x <-> v <> [] /\ back v = x.
Proof.
  unfold back. induction v as [| a [| b v'] IH]; simpl.
  - split; [discriminate | intros [H _]; congruence].
  - split; [intros [= ->]; split; [discriminate | reflexivity] | intros [_ ->]; reflexivity].
  - simpl in IH. rewrite IH. split; intros [_ H]; (split; [discriminate | exact H]).
Qed.

(** Writing an element that is not the last leaves [back] as it was. *)
Lemma back_insert (v : list Z) (i : nat) (x : Z) :
  (S i <> length v)%nat -> back (<[i := x]> v) = back v.
Proof.
  unfold back. revert i. induction v as [| a v' IH]; intros i Hi; [reflexivity |].
  destruct i as [| i'].
  - destruct v' as [| b v'']; [simpl in Hi; lia | reflexivity].
  - specialize (IH i'). simpl in Hi.
    change (<[S i' := x]> (a :: v')) with (a :: <[i' := x]> v').
    destruct v' as [| b v'']; [reflexivity |].
    change (List.last (a :: b :: v'') 0) with (List.last (b :: v'') 0).
    rewrite <- IH by lia.
    destruct i'; reflexivity.
Qed.

Lemma order_supported_iff (p : list Z) :
  0 < size p <= 2 ^ 31 ->
  is_supported_transpose_order p = true <-> list.last p = Some (size p - 1).
Proof.
  intros Hn. unfold is_supported_transpose_order.
  rewrite last_index_int32 by exact Hn.
  rewrite back_last. destruct p as [| a p'].
  - unfold size in Hn. simpl in Hn. lia.
  - cbn [empty negb andb]. rewrite Z.eqb_eq. split; [intros H; split; [discriminate | exact H] | tauto].
Qed.

(** A permutation held in [int32_t] has at most [2^31] entries: its
    largest value, [rank - 1], is an [int32_t]. *)
Lemma permutation_order_size (p : list Z) :
  is_permutation_order p -> size p <= 2 ^ 31.
Proof.
  intros [Hperm Hint]. unfold size.
  destruct (length p) as [| n] eqn:Hlen; [lia |].
  assert (Hin : Z.of_nat n ∈ p).
  { rewrite Hperm. apply list_elem_of_fmap. exists n. split; [reflexivity |].
    apply elem_of_seq. lia. }
  rewrite list.Forall_forall in Hint. specialize (Hint _ Hin).
  unfold is_int32 in Hint. lia.
Qed.

End OrderFacts.

(** C5.  On a non-empty permutation the order check answers whether the
    last element is the rank minus one; on the empty vector it answers
    no. *)
Theorem is_supported_transpose_order_spec :
  (forall p : list Z, p <> [] -> is_permutation_order p ->
     is_supported_transpose_order p = true <-> list.last p = Some (Z.of_nat (length p) - 1))
  /\ is_supported_transpose_order [] = false.
Proof.
  split; [| reflexivity].
  intros p Hne Hp. apply order_supported_iff.
  split; [| apply permutation_order_size; exact Hp].
  unfold size. destruct p; [congruence | simpl; lia].
Qed.

Lemma is_permutation_order_021 : is_permutation_order [0; 2; 1].
Proof.
  split.
  - simpl. apply perm_skip, perm_swap.
  - repeat constructor; unfold is_int32; lia.
Qed.

Lemma is_supported_transpose_order_spec_witness :
  (is_supported_transpose_order [0; 2; 1] = true <-> list.last [0; 2; 1] = Some (Z.of_nat 3 - 1))
  /\ is_supported_transpose_order [] = false.
Proof.
  split.
  - apply (proj1 is_supported_transpose_order_spec [0; 2; 1]);
      [discriminate | exact is_permutation_order_021].
  - apply (proj2 is_supported_transpose_order_spec).
Defined.

(** C10.  The order check looks at the length and at the last element
    only: a vector of [int32_t] whose last element is its length minus one
    is accepted whether or not it is a permutation, as [0, 0, 2] is, and
    writing any element but the last leaves the answer as it was. *)
Theorem is_supported_transpose_order_last_only :
  (forall v : list Z, v <> [] -> Forall is_int32 v ->
     list.last v = Some (Z.of_nat (length v) - 1) ->
     is_supported_transpose_order v = true)
  /\ (is_supported_transpose_order [0; 0; 2] = true
      /\ ~ [0; 0; 2] ≡ₚ (Z.of_nat <$> seq 0 3))
  /\ (forall (v : list Z) (i : nat) (x : Z), (S i <> length v)%nat ->
     is_supported_transpose_order (<[i := x]> v) = is_supported_transpose_order v).
Proof.
  split; [| split; [split |]].
  - intros v Hne Hint Hlast. apply order_supported_iff; [| exact Hlast].
    split; [unfold size; destruct v; [congruence | simpl; lia] |].
    assert (Hin : Z.of_nat (length v) - 1 ∈ v).
    { apply list_elem_of_lookup. exists (pred (length v)).
      rewrite <- last_lookup. exact Hlast. }
    rewrite list.Forall_forall in Hint. specialize (Hint _ Hin).
    unfold is_int32 in Hint. unfold size. lia.
  - reflexivity.
  - intros H. assert (Hin : 1 ∈ [0; 0; 2]).
    { rewrite H. apply list_elem_of_fmap. exists 1%nat.
      split; [reflexivity | apply elem_of_seq; lia]. }
    apply list_elem_of_In in Hin. simpl in Hin. lia.
  - intros v i x Hi. unfold is_supported_transpose_order, size.
    rewrite length_insert. f_equal.
    + destruct v; [reflexivity |]. destruct i; reflexivity.
    + f_equal. apply back_insert. exact Hi.
Qed.

Lemma is_supported_transpose_order_last_only_witness :
  is_supported_transpose_order [0; 0; 2] = true
  /\ is_supported_transpose_order (<[0%nat := 7]> [1; 0; 2]) = is_supported_transpose_order [1; 0; 2].
Proof.
  split.
  - apply (proj1 is_supported_transpose_order_last_only [0; 0; 2]).
    + discriminate.
    + repeat constructor; unfold is_int32; lia.
    + reflexivity.
  - apply (proj2 (proj2 is_supported_transpose_order_last_only) [1; 0; 2] 0%nat 7).
    simpl. lia.
Defined.

(** ** The layout composer *)

Section LayoutFacts.

Implicit Types l fused : list N.

Lemma is_permutation_bound l v : is_permutation l -> v ∈ l -> (v < N.of_nat (length l))%N.
Proof.
  unfold is_permutation. intros Hp Hv. rewrite Hp in Hv.
  apply list_elem_of_fmap in Hv as (k & -> & Hk). apply elem_of_seq in Hk. lia.
Qed.

Lemma at_index_lookup l v w : l !! N.to_nat v = Some w -> at_index l v = w.
Proof. intros H. unfold at_index. apply nth_lookup_Some with (d := 0%N) in H. exact H. Qed.

Lemma lookup_at_index l v : (v < N.of_nat (length l))%N -> l !! N.to_nat v = Some (at_index l v).
Proof.
  intros H. destruct (lookup_lt_is_Some_2 l (N.to_nat v)) as [w Hw]; [lia |].
  rewrite Hw. f_equal. symmetry. apply at_index_lookup. exact Hw.
Qed.

(** When every entry of [layout_2] still to visit is below the size of
    [layout_1], the loop runs to its end: the entries visited are
    [layout_1[layout_2[i]]], the others are as they were. *)
Lemma fuse_loop_seq (layout_1 layout_2 : list N) (k m : nat) fused :
  length layout_2 = (k + m)%nat -> length fused = (k + m)%nat ->
  (forall v, v ∈ drop k layout_2 -> (v < N.of_nat (length layout_1))%N) ->
  fuse_loop layout_1 layout_2 (seq k m) fused
  = Ok (take k fused ++ (at_index layout_1 <$> drop k layout_2)).
Proof.
  revert k fused. induction m as [| m IH]; intros k fused H2 Hf Hin.
  - simpl. rewrite Nat.add_0_r in H2, Hf.
    rewrite drop_ge by lia. rewrite take_ge by lia. rewrite app_nil_r. reflexivity.
  - destruct (lookup_lt_is_Some_2 layout_2 k) as [v Hv]; [lia |].
    assert (Hlt : (v < N.of_nat (length layout_1))%N).
    { apply Hin. apply list_elem_of_lookup. exists 0%nat. rewrite lookup_drop.
      rewrite Nat.add_0_r. exact Hv. }
    cbn [seq fuse_loop]. rewrite Hv. cbn [deref mbind outcome_bind].
    apply N.ltb_lt in Hlt as Hltb. rewrite Hltb.
    rewrite (lookup_at_index _ _ Hlt). cbn [deref mbind outcome_bind].
    rewrite IH.
    + f_equal. rewrite (drop_S layout_2 v k Hv). rewrite fmap_cons.
      rewrite (take_S_r (<[k := at_index layout_1 v]> fused) k (at_index layout_1 v)).
      * rewrite take_insert_ge by lia. rewrite <- app_assoc. reflexivity.
      * apply list_lookup_insert_eq. lia.
    + lia.
    + rewrite length_insert. lia.
    + intros w Hw. apply Hin. rewrite (drop_S layout_2 v k Hv). right. exact Hw.
Qed.

(** Two non-empty layouts of one rank, the second with entries in range,
    compose into [layout_1[layout_2[i]]]. *)
Lemma fuse_layouts_in_range (layout_1 layout_2 : list N) :
  length layout_1 = length layout_2 ->
  (forall v, v ∈ layout_2 -> (v < N.of_nat (length layout_1))%N) ->
  fuse_layouts layout_1 layout_2 = Ok (at_index layout_1 <$> layout_2).
Proof.
  intros Hlen Hin. unfold fuse_layouts.
  destruct layout_1 as [| a l1']; [destruct layout_2; [reflexivity | discriminate] |].
  destruct layout_2 as [| b l2']; [discriminate |].
  cbn [empty]. rewrite Hlen, Nat.eqb_refl. rewrite <- Hlen.
  rewrite (fuse_loop_seq _ _ 0) ; [reflexivity | simpl in *; lia | | exact Hin].
  rewrite length_replicate. reflexivity.
Qed.

(** As soon as an entry to visit is not below the size of [layout_1], the
    loop stops in the second assertion. *)
Lemma fuse_loop_out_of_range (layout_1 layout_2 : list N) (todo : list nat) fused (i : nat) (v : N) :
  (forall j, j ∈ todo -> is_Some (layout_2 !! j)) ->
  i ∈ todo -> layout_2 !! i = Some v -> (N.of_nat (length layout_1) <= v)%N ->
  fuse_loop layout_1 layout_2 todo fused = AssertionFailed msg_exceed_size.
Proof.
  revert fused. induction todo as [| j todo' IH]; intros fused Hall Hi Hv Hge.
  - inversion Hi.
  - destruct (Hall j) as [w Hw]; [left |].
    cbn [fuse_loop]. rewrite Hw. cbn [deref mbind outcome_bind].
    destruct (w <? N.of_nat (length layout_1))%N eqn:Hlt; [| reflexivity].
    apply N.ltb_lt in Hlt. rewrite (lookup_at_index _ _ Hlt). cbn [deref mbind outcome_bind].
    apply IH; [intros j' Hj'; apply Hall; right; exact Hj' | | exact Hv | exact Hge].
    apply elem_of_cons in Hi as [-> | Hi]; [| exact Hi].
    rewrite Hv in Hw. injection Hw as ->. lia.
Qed.

Lemma fmap_at_index_iota l : at_index l <$> (N.of_nat <$> seq 0 (length l)) = l.
Proof.
  apply list_eq. intros i. rewrite !list_lookup_fmap.
  destruct (decide (i < length l)%nat) as [Hlt | Hge].
  - rewrite lookup_seq_lt by exact Hlt. simpl.
    destruct (lookup_lt_is_Some_2 l i Hlt) as [w Hw]. rewrite Hw. f_equal.
    apply at_index_lookup. rewrite Nat2N.id. exact Hw.
  - rewrite lookup_seq_ge by lia. rewrite lookup_ge_None_2 by lia. reflexivity.
Qed.

(** Reading one permutation through another gives a permutation. *)
Lemma is_permutation_compose (layout_1 layout_2 : list N) :
  is_permutation layout_1 -> is_permutation layout_2 -> length layout_1 = length layout_2 ->
  is_permutation (at_index layout_1 <$> layout_2).
Proof.
  unfold is_permutation. intros H1 H2 Hlen.
  rewrite length_fmap. rewrite H2 at 1. rewrite <- Hlen.
  rewrite fmap_at_index_iota. exact H1.
Qed.

Lemma fuse_layouts_permutations (layout_1 layout_2 : list N) :
  is_permutation layout_1 -> is_permutation layout_2 -> length layout_1 = length layout_2 ->
  fuse_layouts layout_1 layout_2 = Ok (at_index layout_1 <$> layout_2).
Proof.
  intros H1 H2 Hlen. apply fuse_layouts_in_range; [exact Hlen |].
  intros v Hv. rewrite Hlen. apply is_permutation_bound; assumption.
Qed.

End LayoutFacts.

(** C3.  Two valid permutations of one rank compose into the permutation
    whose entry at [i] is [outer[inner[i]]]. *)
Theorem fuse_layouts_composes (outer inner : list N) :
  is_permutation outer -> is_permutation inner -> length outer = length inner ->
  exists fused,
    fuse_layouts outer inner = Ok fused
    /\ is_permutation fused
    /\ length fused = length inner
    /\ forall (i : nat) (j : N), inner !! i = Some j ->
         exists v, outer !! N.to_nat j = Some v /\ fused !! i = Some v.
Proof.
  intros Ho Hi Hlen. exists (at_index outer <$> inner).
  split; [apply fuse_layouts_permutations; assumption |].
  split; [apply is_permutation_compose; assumption |].
  split; [apply length_fmap |].
  intros i j Hj. exists (at_index outer j). split.
  - apply lookup_at_index. rewrite Hlen. apply is_permutation_bound; [exact Hi |].
    apply list_elem_of_lookup. exists i. exact Hj.
  - rewrite list_lookup_fmap, Hj. reflexivity.
Qed.

Lemma is_permutation_1203 : is_permutation [1; 2; 0; 3]%N.
Proof. apply (bool_decide_unpack _). reflexivity. Qed.

Lemma is_permutation_0213 : is_permutation [0; 2; 1; 3]%N.
Proof. apply (bool_decide_unpack _). reflexivity. Qed.

Lemma fuse_layouts_composes_witness :
  exists fused,
    fuse_layouts [1; 2; 0; 3]%N [0; 2; 1; 3]%N = Ok fused
    /\ is_permutation fused
    /\ length fused = length [0; 2; 1; 3]%N
    /\ forall (i : nat) (j : N), [0; 2; 1; 3]%N !! i = Some j ->
         exists v, [1; 2; 0; 3]%N !! N.to_nat j = Some v /\ fused !! i = Some v.
Proof.
  apply (fuse_layouts_composes [1; 2; 0; 3]%N [0; 2; 1; 3]%N).
  - exact is_permutation_1203.
  - exact is_permutation_0213.
  - reflexivity.
Defined.

(** C4.  The empty layout is neutral on either side of the composer. *)
Theorem fuse_layouts_identity (P : list N) :
  fuse_layouts [] P = Ok P /\ fuse_layouts P [] = Ok P.
Proof.
  split; [reflexivity |]. destruct P; reflexivity.
Qed.

(** C6.  Two non-empty layouts of different sizes, or of one size with an
    entry of the second out of range for the first, stop the composer in
    an assertion; two valid permutations of one rank do not. *)
Theorem fuse_layouts_asserts :
  (forall layout_1 layout_2 : list N, layout_1 <> [] -> layout_2 <> [] ->
     (length layout_1 <> length layout_2
      \/ exists (i : nat) (v : N), layout_2 !! i = Some v /\ (N.of_nat (length layout_1) <= v)%N) ->
     aborts (fuse_layouts layout_1 layout_2))
  /\ (forall layout_1 layout_2 : list N,
        is_permutation layout_1 -> is_permutation layout_2 ->
        length layout_1 = length layout_2 ->
        returns (fuse_layouts layout_1 layout_2)).
Proof.
  split.
  - intros l1 l2 H1 H2 Hbad. unfold fuse_layouts.
    destruct l1 as [| a l1']; [congruence |]. destruct l2 as [| b l2']; [congruence |].
    cbn [empty].
    destruct (length (a :: l1') =? length (b :: l2'))%nat eqn:Hlen;
      [| exists msg_equal_ranks; reflexivity].
    apply Nat.eqb_eq in Hlen.
    destruct Hbad as [Hne | (i & v & Hv & Hge)]; [congruence |].
    exists msg_exceed_size.
    apply (fuse_loop_out_of_range _ _ _ _ i v); [| | exact Hv | exact Hge].
    + intros j Hj. apply elem_of_seq in Hj. apply lookup_lt_is_Some_2. lia.
    + apply elem_of_seq. apply lookup_lt_Some in Hv. lia.
  - intros l1 l2 Hp1 Hp2 Hlen. eexists. apply fuse_layouts_permutations; assumption.
Qed.

Lemma fuse_layouts_asserts_witness :
  aborts (fuse_layouts [0; 1; 2]%N [0; 1]%N)
  /\ aborts (fuse_layouts [0; 1; 2]%N [0; 3; 1]%N)
  /\ returns (fuse_layouts [1; 2; 0; 3]%N [0; 2; 1; 3]%N).
Proof.
  split; [| split].
  - apply (proj1 fuse_layouts_asserts); [discriminate | discriminate |].
    left. simpl. lia.
  - apply (proj1 fuse_layouts_asserts); [discriminate | discriminate |].
    right. exists 1%nat, 3%N. split; [reflexivity | simpl; lia].
  - apply (proj2 fuse_layouts_asserts);
      [exact is_permutation_1203 | exact is_permutation_0213 | reflexivity].
Defined.

(** ** The graph *)

Section GraphFacts.

Implicit Types (g : Graph) (nd : Node) (p : InputPort) (v : Output).

Lemma bind_Ok {A B} (m : outcome A) (k : A -> outcome B) (b : B) :
  m ≫= k = Ok b <-> exists a, m = Ok a /\ k a = Ok b.
Proof.
  destruct m as [a | msg |]; simpl; split.
  - intros H. exists a. split; [reflexivity | exact H].
  - intros (a' & [= <-] & H). exact H.
  - discriminate.
  - intros (a' & H & _). discriminate.
  - discriminate.
  - intros (a' & H & _). discriminate.
Qed.

Lemma fmap_Ok {A B} (f : A -> B) (m : outcome A) (b : B) :
  f <$> m = Ok b <-> exists a, m = Ok a /\ b = f a.
Proof.
  destruct m as [a | msg |]; simpl; split.
  - intros [= <-]. exists a. split; reflexivity.
  - intros (a' & [= <-] & ->). reflexivity.
  - discriminate.
  - intros (a' & H & _). discriminate.
  - discriminate.
  - intros (a' & H & _). discriminate.
Qed.

Lemma deref_Ok {A} (o : option A) (a : A) : deref o = Ok a <-> o = Some a.
Proof. destruct o; simpl; split; congruence. Qed.

Lemma wf_lookup g n nd : wf g = true -> g !! n = Some nd -> wf_node g n nd = true.
Proof.
  unfold wf. rewrite forallb_forall. intros H Hn. apply H.
  apply list_elem_of_In. apply list_elem_of_lookup. exists n.
  rewrite list_lookup_imap, Hn. reflexivity.
Qed.

Lemma wf_intro g : (forall n nd, g !! n = Some nd -> wf_node g n nd = true) -> wf g = true.
Proof.
  intros H. unfold wf. rewrite forallb_forall. intros b Hb.
  apply list_elem_of_In, list_elem_of_lookup in Hb as [n Hn].
  rewrite list_lookup_imap in Hn.
  destruct (g !! n) as [nd |] eqn:Hnd; [| discriminate].
  injection Hn as <-. apply H. exact Hnd.
Qed.

Lemma wf_input_spec g n p :
  wf_input g n p = true <->
  ((source p).1 < n)%nat /\
  exists src, g !! (source p).1 = Some src /\ ((source p).2 < length (outputs src))%nat.
Proof.
  unfold wf_input. rewrite andb_true_iff, bool_decide_eq_true.
  destruct (g !! (source p).1) as [src |].
  - rewrite bool_decide_eq_true. split.
    + intros [H1 H2]. split; [exact H1 |]. exists src. split; [reflexivity | exact H2].
    + intros [H1 (src' & [= <-] & H2)]. split; assumption.
  - split; [intros [_ H]; discriminate | intros [_ (src & H & _)]; discriminate].
Qed.

(** In a well-formed graph an input consumes an output of an earlier node. *)
Lemma wf_source g n nd i p :
  wf g = true -> g !! n = Some nd -> inputs nd !! i = Some p ->
  ((source p).1 < n)%nat /\
  exists src, g !! (source p).1 = Some src /\ ((source p).2 < length (outputs src))%nat.
Proof.
  intros Hwf Hn Hp. apply wf_input_spec.
  pose proof (wf_lookup _ _ _ Hwf Hn) as H. unfold wf_node in H.
  apply andb_true_iff in H as [H _]. rewrite forallb_forall in H.
  apply H, list_elem_of_In, list_elem_of_lookup. exists i. exact Hp.
Qed.

Lemma wf_transpose g n nd :
  wf g = true -> g !! n = Some nd -> op nd = Transpose ->
  exists a c o, inputs nd = [a; c] /\ outputs nd = [o].
Proof.
  intros Hwf Hn Hop. pose proof (wf_lookup _ _ _ Hwf Hn) as H. unfold wf_node in H.
  apply andb_true_iff in H as [_ H]. rewrite Hop in H.
  apply andb_true_iff in H as [H1 H2]. apply bool_decide_eq_true in H1, H2.
  destruct (inputs nd) as [| a [| c [| ? ?]]]; try discriminate.
  destruct (outputs nd) as [| o [| ? ?]]; try discriminate.
  exists a, c, o. split; reflexivity.
Qed.

Lemma wf_brgemm g n nd :
  wf g = true -> g !! n = Some nd -> op nd = Brgemm -> exists o, outputs nd = [o].
Proof.
  intros Hwf Hn Hop. pose proof (wf_lookup _ _ _ Hwf Hn) as H. unfold wf_node in H.
  apply andb_true_iff in H as [_ H]. rewrite Hop in H. apply bool_decide_eq_true in H.
  destruct (outputs nd) as [| o [| ? ?]]; try discriminate.
  exists o. reflexivity.
Qed.

Lemma is_transpose_op nd : is_transpose nd = true <-> op nd = Transpose.
Proof. unfold is_transpose. destruct (op nd); split; congruence. Qed.

Lemma is_brgemm_op nd : is_brgemm nd = true <-> op nd = Brgemm.
Proof. unfold is_brgemm. destruct (op nd); split; congruence. Qed.

Lemma as_constant_op nd data : as_constant nd = Some data <-> op nd = Constant data.
Proof. unfold as_constant. destruct (op nd); split; congruence. Qed.

End GraphFacts.

(** C7.  On a value of a well-formed graph the check returns, and it
    returns [true] exactly when the value is produced by a Transpose whose
    second input is a Constant that passes the order check. *)
Theorem is_supported_transpose_spec (g : Graph) (v : Output) :
  wf g = true -> (v.1 < length g)%nat ->
  exists b : bool,
    is_supported_transpose g v = Ok b
    /\ (b = true <->
        exists nd c cn data,
          g !! v.1 = Some nd /\ op nd = Transpose
          /\ inputs nd !! 1%nat = Some c
          /\ g !! (source c).1 = Some cn /\ op cn = Constant data
          /\ is_supported_transpose_order (cast_vector_int32 data) = true).
Proof.
  intros Hwf Hv. destruct (lookup_lt_is_Some_2 g v.1 Hv) as [nd Hnd].
  assert (Heval : is_supported_transpose g v =
                  if negb (is_transpose nd) then Ok false
                  else order ← get_input_node g nd 1;
                       match as_constant order with
                       | None => Ok false
                       | Some data => Ok (is_supported_transpose_order (cast_vector_int32 data))
                       end).
  { unfold is_supported_transpose, get_node. rewrite Hnd. reflexivity. }
  rewrite Heval. clear Heval.
  destruct (is_transpose nd) eqn:Htr; cbn [negb].
  - apply is_transpose_op in Htr.
    destruct (wf_transpose _ _ _ Hwf Hnd Htr) as (a & c & o & Hin & _).
    destruct (wf_source g v.1 nd 1 c Hwf Hnd) as (_ & cn & Hcn & _); [rewrite Hin; reflexivity |].
    assert (Hord : get_input_node g nd 1 = Ok cn).
    { unfold get_input_node, input_value, get_node. rewrite Hin. cbn. rewrite Hcn. reflexivity. }
    rewrite Hord. cbn [mbind outcome_bind].
    destruct (as_constant cn) as [data |] eqn:Hc.
    + eexists. split; [reflexivity |]. split.
      * intros Hok. exists nd, c, cn, data. rewrite Hin.
        apply as_constant_op in Hc. auto 10.
      * intros (nd' & c' & cn' & data' & H1 & _ & H3 & H4 & H5 & H6).
        rewrite Hnd in H1. injection H1 as <-. rewrite Hin in H3. injection H3 as <-.
        rewrite Hcn in H4. injection H4 as <-. apply as_constant_op in H5.
        rewrite Hc in H5. injection H5 as <-. exact H6.
    + exists false. split; [reflexivity |]. split; [discriminate |].
      intros (nd' & c' & cn' & data' & H1 & _ & H3 & H4 & H5 & _).
      rewrite Hnd in H1. injection H1 as <-. rewrite Hin in H3. injection H3 as <-.
      rewrite Hcn in H4. injection H4 as <-. apply as_constant_op in H5. congruence.
  - exists false. split; [reflexivity |]. split; [discriminate |].
    intros (nd' & c' & cn' & data' & H1 & H2 & _).
    rewrite Hnd in H1. injection H1 as <-. apply is_transpose_op in H2. congruence.
Qed.

Lemma is_supported_transpose_spec_witness :
  exists b : bool,
    is_supported_transpose Samples.both_inputs_transposed (2%nat, 0%nat) = Ok b
    /\ (b = true <->
        exists nd c cn data,
          Samples.both_inputs_transposed !! 2%nat = Some nd /\ op nd = Transpose
          /\ inputs nd !! 1%nat = Some c
          /\ Samples.both_inputs_transposed !! (source c).1 = Some cn /\ op cn = Constant data
          /\ is_supported_transpose_order (cast_vector_int32 data) = true).
Proof.
  apply (is_supported_transpose_spec Samples.both_inputs_transposed (2%nat, 0%nat)).
  - reflexivity.
  - simpl. lia.
Defined.

(** ** The loop over the inputs (lines 105-119) *)

Section InputLoop.

Implicit Types (g G : Graph) (nd : Node) (p : InputPort) (v : Output) (b : node_id).

Lemma agree_below_refl b g : agree_below b g g.
Proof. intros n _. reflexivity. Qed.

Lemma agree_below_insert b g G nd :
  agree_below b g G -> agree_below b g (<[b := nd]> G).
Proof.
  intros H n Hn. rewrite list_lookup_insert_ne by lia. apply H. exact Hn.
Qed.

Lemma agree_below_alter b g G (f : Node -> Node) :
  agree_below b g G -> agree_below b g (alter f b G).
Proof.
  intros H n Hn. rewrite list_lookup_alter_ne by lia. apply H. exact Hn.
Qed.

Lemma alter_as_insert {A} (f : A -> A) (l : list A) (i : nat) (x : A) :
  l !! i = Some x -> alter f i l = <[i := f x]> l.
Proof.
  intros H. apply list_eq. intros j. destruct (decide (i = j)) as [<- | Hne].
  - rewrite list_lookup_alter_eq, H. simpl.
    rewrite list_lookup_insert_eq by (eapply lookup_lt_Some; exact H). reflexivity.
  - rewrite list_lookup_alter_ne, list_lookup_insert_ne by exact Hne. reflexivity.
Qed.

Lemma get_node_agree b g G n :
  agree_below b g G -> (n < b)%nat -> get_node G n = get_node g n.
Proof. intros H Hn. unfold get_node. rewrite H by exact Hn. reflexivity. Qed.

Lemma get_vdims_agree b g G v :
  agree_below b g G -> (v.1 < b)%nat -> get_vdims G v = get_vdims g v.
Proof.
  intros H Hv. unfold get_vdims. rewrite (get_node_agree b g G) by assumption. reflexivity.
Qed.

Lemma get_input_node_agree b g G n nd i :
  wf g = true -> agree_below b g G -> g !! n = Some nd -> (n <= b)%nat ->
  get_input_node G nd i = get_input_node g nd i.
Proof.
  intros Hwf H Hn Hb. unfold get_input_node, input_value.
  destruct (inputs nd !! i) as [c |] eqn:Hc; [| reflexivity].
  destruct (wf_source g n nd i c Hwf Hn Hc) as [Hlt _].
  cbn. apply (get_node_agree b); [exact H | lia].
Qed.

(** The check of a value produced before [b] reads nodes before [b] only. *)
Lemma is_supported_transpose_agree b g G v :
  wf g = true -> agree_below b g G -> (v.1 < b)%nat ->
  is_supported_transpose G v = is_supported_transpose g v.
Proof.
  intros Hwf H Hv. unfold is_supported_transpose.
  rewrite (get_node_agree b g G) by assumption. unfold get_node.
  destruct (g !! v.1) as [nd |] eqn:Hnd; [| reflexivity].
  cbn [deref mbind outcome_bind]. destruct (negb (is_transpose nd)); [reflexivity |].
  rewrite (get_input_node_agree b g G v.1 nd) by (assumption || lia). reflexivity.
Qed.

(** One turn of the loop writes into input [k] of the Brgemm what
    [fused_port] computes in the graph the loop started from. *)
Lemma fuse_input_step b g G nd (k : nat) p :
  wf g = true -> agree_below b g G ->
  G !! b = Some nd -> inputs nd !! k = Some p -> ((source p).1 < b)%nat ->
  fuse_input b G k =
  (p' ← fused_port g p; Ok (<[b := on_inputs (fun _ => <[k := p']> (inputs nd)) nd]> G)).
Proof.
  intros Hwf Hag Hb Hk Hsrc. unfold fuse_input, fused_port.
  assert (E1 : get_node G b = Ok nd) by (unfold get_node; rewrite Hb; reflexivity).
  assert (E2 : input_value nd k = Ok (source p)) by (unfold input_value; rewrite Hk; reflexivity).
  rewrite E1. cbn [mbind outcome_bind]. rewrite E2. cbn [mbind outcome_bind].
  rewrite (is_supported_transpose_agree b g G) by assumption.
  destruct (is_supported_transpose g (source p)) as [[|] | msg |]; cbn [mbind outcome_bind];
    [| | reflexivity | reflexivity].
  - rewrite (get_node_agree b g G) by assumption.
    destruct (get_node g (source p).1) as [tr | msg |] eqn:Htr; cbn [mbind outcome_bind];
      [| reflexivity | reflexivity].
    apply deref_Ok in Htr.
    rewrite (get_input_node_agree b g G (source p).1 tr) by (assumption || lia).
    destruct (get_input_node g tr 1) as [cn | msg |]; cbn [fmap outcome_fmap mbind outcome_bind];
      [| reflexivity | reflexivity].
    destruct (input_value tr 0) as [x | msg |] eqn:Hx; cbn [mbind outcome_bind];
      [| reflexivity | reflexivity].
    rewrite Hk. cbn [deref fmap outcome_fmap mbind outcome_bind].
    destruct (as_constant cn) as [data |]; cbn [deref fmap outcome_fmap mbind outcome_bind];
      [| reflexivity].
    unfold replace_source_output, update_in_port. cbn [fst snd].
    rewrite (get_node_agree b g) by (repeat apply agree_below_alter; assumption).
    assert (E3 : get_node g (source p).1 = Ok tr) by (unfold get_node; rewrite Htr; reflexivity).
    rewrite E3. cbn [mbind outcome_bind]. rewrite Hx. cbn [mbind outcome_bind].
    assert (Hxlt : (x.1 < (source p).1)%nat).
    { apply fmap_Ok in Hx as (px & Hpx & ->). apply deref_Ok in Hpx.
      apply (wf_source g _ tr 0 px Hwf Htr Hpx). }
    rewrite (get_vdims_agree b g) by (repeat apply agree_below_alter; assumption || lia).
    destruct (get_vdims g x) as [vdims | msg |]; cbn [mbind outcome_bind];
      [| reflexivity | reflexivity].
    destruct (fuse_layouts (cast_vector_size_t data) (get_layout (in_port p)))
      as [fused | msg |]; cbn [mbind outcome_bind]; [| reflexivity | reflexivity].
    f_equal. rewrite !list_alter_alter_eq. rewrite (alter_as_insert _ _ _ _ Hb).
    f_equal. unfold on_inputs. cbn. f_equal.
    rewrite !list_alter_alter_eq. rewrite (alter_as_insert _ _ _ _ Hk). reflexivity.
  - f_equal. rewrite (list_insert_id (inputs nd)) by exact Hk.
    symmetry. apply list_insert_id. rewrite Hb. f_equal. destruct nd; reflexivity.
Qed.

Lemma fuse_inputs_from_spec b g (m : nat) : forall G nd (k : nat),
  wf g = true -> agree_below b g G -> G !! b = Some nd ->
  length (inputs nd) = (k + m)%nat ->
  (forall p, p ∈ drop k (inputs nd) -> ((source p).1 < b)%nat) ->
  fuse_inputs_from b G (seq k m) =
  (ps ← map_outcome (fused_port g) (drop k (inputs nd));
   Ok (<[b := on_inputs (fun _ => take k (inputs nd) ++ ps) nd]> G)).
Proof.
  induction m as [| m IH]; intros G nd k Hwf Hag Hb Hlen Hsrc.
  - rewrite drop_ge by lia. rewrite take_ge by lia. cbn. f_equal.
    rewrite app_nil_r. symmetry. apply list_insert_id. rewrite Hb. f_equal.
    destruct nd; reflexivity.
  - destruct (lookup_lt_is_Some_2 (inputs nd) k) as [p Hp]; [lia |].
    rewrite (drop_S _ _ _ Hp). cbn [seq fuse_inputs_from map_outcome].
    rewrite (fuse_input_step b g G nd k p Hwf Hag Hb Hp)
      by (apply Hsrc; rewrite (drop_S _ _ _ Hp); left).
    destruct (fused_port g p) as [p' | msg |]; cbn [mbind outcome_bind];
      [| reflexivity | reflexivity].
    set (nd' := on_inputs (fun _ => <[k := p']> (inputs nd)) nd).
    assert (Hb' : <[b := nd']> G !! b = Some nd').
    { apply list_lookup_insert_eq. eapply lookup_lt_Some. exact Hb. }
    rewrite (IH (<[b := nd']> G) nd' (S k) Hwf (agree_below_insert _ _ _ _ Hag) Hb').
    + subst nd'. cbn [inputs on_inputs].
      rewrite drop_insert_lt by lia.
      destruct (map_outcome (fused_port g) (drop (S k) (inputs nd))) as [ps | msg |];
        cbn [mbind outcome_bind]; [| reflexivity | reflexivity].
      f_equal. rewrite list_insert_insert_eq. f_equal. unfold on_inputs. cbn. f_equal.
      rewrite (take_S_r (<[k := p']> (inputs nd)) k p')
        by (apply list_lookup_insert_eq; lia).
      rewrite take_insert_ge by lia. rewrite <- app_assoc. reflexivity.
    + subst nd'. cbn [inputs on_inputs]. rewrite length_insert. lia.
    + subst nd'. cbn [inputs on_inputs]. rewrite drop_insert_lt by lia.
      intros q Hq. apply Hsrc. rewrite (drop_S _ _ _ Hp). right. exact Hq.
Qed.

(** The whole loop, started in a graph with the nodes of [g] before the
    Brgemm. *)
Lemma fuse_inputs_spec b g G nd :
  wf g = true -> agree_below b g G -> G !! b = Some nd ->
  (forall p, p ∈ inputs nd -> ((source p).1 < b)%nat) ->
  fuse_inputs b G =
  (ps ← map_outcome (fused_port g) (inputs nd);
   Ok (<[b := on_inputs (fun _ => ps) nd]> G)).
Proof.
  intros Hwf Hag Hb Hsrc. unfold fuse_inputs, get_node. rewrite Hb.
  cbn [deref mbind outcome_bind].
  apply (fuse_inputs_from_spec b g (length (inputs nd)) G nd 0); auto.
Qed.

End InputLoop.

(** ** The consumers of the transpose (lines 100-102) *)

Section Consumers.

Implicit Types (g : Graph) (nd : Node) (p : InputPort) (v old new : Output).

Lemma elem_of_node_targets v (n : node_id) nd (t : Input) :
  t ∈ node_targets v n nd <-> t.1 = n /\ exists p, inputs nd !! t.2 = Some p /\ source p = v.
Proof.
  unfold node_targets. rewrite list_elem_of_omap. split.
  - intros (o & Ho & Heq). subst o. apply list_elem_of_lookup in Ho as [i Hi].
    rewrite list_lookup_imap in Hi.
    destruct (inputs nd !! i) as [p |] eqn:Hp; [| discriminate].
    cbn in Hi. destruct (decide (source p = v)) as [Hs | Hs]; [| discriminate].
    injection Hi as <-. split; [reflexivity |]. exists p. split; assumption.
  - intros [Hn (p & Hp & Hs)]. exists (Some t). split; [| reflexivity].
    apply list_elem_of_lookup. exists t.2. rewrite list_lookup_imap, Hp. cbn.
    rewrite decide_True by exact Hs. destruct t; cbn in *; subst; reflexivity.
Qed.

(** [get_target_inputs] lists the inputs whose source is the value. *)
Lemma elem_of_get_target_inputs g v (t : Input) :
  t ∈ get_target_inputs g v <->
  exists nd p, g !! t.1 = Some nd /\ inputs nd !! t.2 = Some p /\ source p = v.
Proof.
  unfold get_target_inputs. rewrite list_elem_of_join. split.
  - intros (l & Ht & Hl). apply list_elem_of_lookup in Hl as [n Hn].
    rewrite list_lookup_imap in Hn.
    destruct (g !! n) as [nd |] eqn:Hnd; [| discriminate].
    injection Hn as <-. apply elem_of_node_targets in Ht as [<- (p & Hp & Hs)].
    exists nd, p. auto.
  - intros (nd & p & Hnd & Hp & Hs). exists (node_targets v t.1 nd). split.
    + apply elem_of_node_targets. split; [reflexivity |]. exists p. auto.
    + apply list_elem_of_lookup. exists t.1. rewrite list_lookup_imap, Hnd. reflexivity.
Qed.

Lemma replace_source_output_lookup g (t : Input) new (n : node_id) :
  replace_source_output g t new !! n
  = (if decide (t.1 = n) then on_inputs (alter (with_source new) t.2) else fun nd => nd)
      <$> g !! n.
Proof.
  unfold replace_source_output. rewrite list_lookup_alter.
  destruct (decide (t.1 = n)) as [<- | ?]; [reflexivity |]. destruct (g !! n); reflexivity.
Qed.

(** After the loop over a list of inputs, these inputs consume [new]
    and nothing else has changed. *)
Lemma foldl_replace_lookup new (ts : list Input) : forall g (n : node_id),
  foldl (fun g' i => replace_source_output g' i new) g ts !! n
  = on_inputs (imap (fun i p => if bool_decide ((n, i) ∈ ts) then with_source new p else p))
      <$> g !! n.
Proof.
  induction ts as [| t ts' IH]; intros g n.
  - cbn [foldl]. destruct (g !! n) as [nd |]; [| reflexivity]. cbn. f_equal.
    unfold on_inputs. destruct nd as [o ins outs]. cbn. f_equal.
    apply list_eq. intros i. rewrite list_lookup_imap. destruct (ins !! i); reflexivity.
  - cbn [foldl]. rewrite IH, replace_source_output_lookup.
    destruct (g !! n) as [nd |]; [| reflexivity]. cbn. f_equal.
    destruct nd as [o ins outs]. unfold on_inputs.
    destruct (decide (t.1 = n)) as [Hn | Hn]; cbn; f_equal.
    + apply list_eq. intros i. rewrite !list_lookup_imap, list_lookup_alter.
      destruct (decide (t.2 = i)) as [<- | Hi].
      * destruct (ins !! t.2) as [p |]; [| reflexivity]. cbn. f_equal.
        rewrite (bool_decide_eq_true_2 ((n, t.2) ∈ t :: ts'))
          by (apply elem_of_cons; left; destruct t; cbn in *; subst; reflexivity).
        destruct (bool_decide ((n, t.2) ∈ ts')); reflexivity.
      * destruct (ins !! i) as [p |]; [| reflexivity]. cbn. f_equal.
        apply (f_equal (fun b : bool => if b then with_source new p else p)).
        apply bool_decide_ext. rewrite elem_of_cons. split; [auto |].
        intros [Heq | H]; [| exact H]. subst t. cbn in Hi. congruence.
    + apply list_eq. intros i. rewrite !list_lookup_imap.
      destruct (ins !! i) as [p |]; [| reflexivity]. cbn. f_equal.
      apply (f_equal (fun b : bool => if b then with_source new p else p)).
      apply bool_decide_ext. rewrite elem_of_cons. split; [auto |].
      intros [Heq | H]; [| exact H]. subst t. cbn in Hn. congruence.
Qed.

(** Lines 100-102 turn every input that consumes [old] into one that
    consumes [new], in every node. *)
Lemma replace_consumers_spec g old new :
  replace_consumers g old new = redirect old new <$> g.
Proof.
  unfold replace_consumers. apply list_eq. intros n.
  rewrite foldl_replace_lookup, list_lookup_fmap.
  destruct (g !! n) as [nd |] eqn:Hnd; [| reflexivity]. cbn. f_equal.
  unfold redirect, on_inputs. f_equal.
  apply list_eq. intros i. rewrite list_lookup_imap, list_lookup_fmap.
  destruct (inputs nd !! i) as [p |] eqn:Hp; [| reflexivity]. cbn. f_equal.
  destruct (decide (source p = old)) as [Hs | Hs].
  - rewrite bool_decide_eq_true_2; [reflexivity |].
    apply elem_of_get_target_inputs. exists nd, p. auto.
  - rewrite bool_decide_eq_false_2; [reflexivity |].
    intros (nd' & p' & Hnd' & Hp' & Hs')%elem_of_get_target_inputs. cbn in *.
    congruence.
Qed.

End Consumers.

(** ** The callback (lines 68-125) *)

(** Takes apart a hypothesis saying that a sequence of calls returned. *)
Ltac inv_ok H :=
  repeat match type of H with
  | Undefined = Ok _ => discriminate H
  | AssertionFailed _ = Ok _ => discriminate H
  | mbind _ ?m = Ok _ =>
      let E := fresh "E" in
      destruct m eqn:E; cbn [mbind outcome_bind] in H; [| discriminate H | discriminate H]
  | (if negb ?c then _ else _) = Ok _ =>
      let E := fresh "E" in destruct c eqn:E; cbn [negb] in H
  | (if ?c then _ else _) = Ok _ =>
      let E := fresh "E" in destruct c eqn:E
  end.

Section CallbackFacts.

Variable infer_output_shape : Node -> list VectorDims -> outcome VectorDims.

Implicit Types (g : Graph) (nd : Node) (p : InputPort) (m v : Output) (b : node_id).

Lemma input_value_Ok nd (i : nat) v :
  input_value nd i = Ok v <-> exists p, inputs nd !! i = Some p /\ v = source p.
Proof.
  unfold input_value. rewrite fmap_Ok. setoid_rewrite deref_Ok. reflexivity.
Qed.

Lemma get_node_Ok g (n : node_id) nd : get_node g n = Ok nd <-> g !! n = Some nd.
Proof. apply deref_Ok. Qed.

Lemma get_input_node_Ok g nd (i : nat) cn :
  get_input_node g nd i = Ok cn <->
  exists p, inputs nd !! i = Some p /\ g !! (source p).1 = Some cn.
Proof.
  unfold get_input_node. rewrite bind_Ok. setoid_rewrite input_value_Ok.
  setoid_rewrite get_node_Ok. split.
  - intros (v & (p & Hp & ->) & H). exists p. auto.
  - intros (p & Hp & H). exists (source p). split; [exists p |]; auto.
Qed.

(** What lines 89-103 did when they ran to their end. *)
Lemma fuse_output_inv g m b g1 :
  fuse_output g m = Ok (b, g1) ->
  exists root a c bn cn data bo vdims fused,
    g !! m.1 = Some root /\ inputs root !! 0%nat = Some a /\ b = (source a).1
    /\ g !! b = Some bn /\ op bn = Brgemm
    /\ inputs root !! 1%nat = Some c /\ g !! (source c).1 = Some cn /\ op cn = Constant data
    /\ outputs bn !! 0%nat = Some bo
    /\ get_vdims g m = Ok vdims
    /\ fuse_layouts (get_layout (out_port bo)) (cast_vector_size_t data) = Ok fused
    /\ g1 = redirect m (b, 0%nat)
              <$> <[b := on_outputs (fun os => <[0%nat := mkOut (tensor_shape bo) (mkPort vdims fused)]> os) bn]> g.
Proof.
  intros H. unfold fuse_output in H. inv_ok H.

  - injection H as <- <-.
    match goal with E : get_node g m.1 = Ok ?x |- _ => rename x into root; apply get_node_Ok in E end.
    match goal with E : input_value root 0 = Ok ?x |- _ =>
      apply input_value_Ok in E as (a & Ha & ->) end.
    match goal with E : get_node g (source a).1 = Ok ?x |- _ => rename x into bn; apply get_node_Ok in E end.
    match goal with E : _ <$> get_input_node g root 1 = Ok _ |- _ =>
      apply fmap_Ok in E as (cn & (c & Hc & Hcn)%get_input_node_Ok & ->) end.
    match goal with E : _ <$> deref (as_constant cn) = Ok _ |- _ =>
      apply fmap_Ok in E as (data & Hdata%deref_Ok%as_constant_op & ->) end.
    match goal with E : _ <$> deref (outputs bn !! 0%nat) = Ok _ |- _ =>
      apply fmap_Ok in E as (bo & Hbo%deref_Ok & ->) end.
    match goal with E : is_brgemm bn = true |- _ => apply is_brgemm_op in E end.
    eexists root, a, c, bn, cn, data, bo, _, _.
    repeat (split; [eassumption || reflexivity |]).
    rewrite replace_consumers_spec. f_equal.
    unfold update_out_port. cbn [fst snd]. rewrite list_alter_alter_eq.
    match goal with E : g !! (source a).1 = Some bn |- _ => rewrite (alter_as_insert _ _ _ _ E) end.
    f_equal. unfold on_outputs. cbn. f_equal.
    rewrite list_alter_alter_eq. rewrite (alter_as_insert _ _ _ _ Hbo). reflexivity.
Qed.

(** A node whose inputs do not consume [old] is not touched. *)
Lemma redirect_id old new nd :
  (forall p, p ∈ inputs nd -> source p <> old) -> redirect old new nd = nd.
Proof.
  intros H. unfold redirect, on_inputs. destruct nd as [o ins outs]. cbn in *. f_equal.
  rewrite <- (list_fmap_id ins) at 2. apply list_fmap_ext. intros i p Hp.
  rewrite decide_False; [reflexivity |]. apply H. apply list_elem_of_lookup. exists i. exact Hp.
Qed.

(** The inputs of a node consume values produced before it. *)
Lemma wf_sources_below g (n : node_id) nd p :
  wf g = true -> g !! n = Some nd -> p ∈ inputs nd -> ((source p).1 < n)%nat.
Proof.
  intros Hwf Hn Hp. apply list_elem_of_lookup in Hp as [i Hi].
  apply (wf_source g n nd i p Hwf Hn Hi).
Qed.

Lemma redirect_below g m new (n : node_id) nd :
  wf g = true -> g !! n = Some nd -> (n <= m.1)%nat -> redirect m new nd = nd.
Proof.
  intros Hwf Hn Hlt. apply redirect_id. intros p Hp Heq.
  pose proof (wf_sources_below g n nd p Hwf Hn Hp) as H. rewrite Heq in H. lia.
Qed.

Lemma validate_inv g b g' :
  validate_and_infer_types infer_output_shape b g = Ok g' ->
  exists s, g' = set_tensor_shape g (b, 0%nat) s.
Proof.
  intros H. unfold validate_and_infer_types in H. inv_ok H.
  injection H as <-. eexists. reflexivity.
Qed.

(** What a call of the callback that returned has done: [g1] is the
    graph after lines 89-103, [ps] are the input ports of the Brgemm after
    the loop, [s] is the shape inferred for its output. *)
Lemma callback_inv g m (r : bool) g' :
  wf g = true -> callback infer_output_shape g m = Ok (r, g') ->
  exists b bn g1 nd1 ps s root,
    matched_brgemm g m = Some b /\ g !! b = Some bn /\ op bn = Brgemm
    /\ g !! m.1 = Some root
    /\ ((op root = Brgemm /\ b = m.1 /\ g1 = g)
        \/ (op root <> Brgemm /\ (b < m.1)%nat /\ fuse_output g m = Ok (b, g1)))
    /\ g1 !! b = Some nd1 /\ inputs nd1 = inputs bn
    /\ map_outcome (fused_port g) (inputs bn) = Ok ps
    /\ r = true
    /\ g' = set_tensor_shape (<[b := on_inputs (fun _ => ps) nd1]> g1) (b, 0%nat) s.
Proof.
  intros Hwf H. unfold callback in H.
  destruct (get_node g m.1) as [root | |] eqn:Hroot; cbn [mbind outcome_bind] in H;
    [| discriminate | discriminate].
  apply get_node_Ok in Hroot.
  destruct (is_brgemm root) eqn:Hbr.
  - cbn [mbind outcome_bind] in H. apply is_brgemm_op in Hbr as Hop.
    rewrite (fuse_inputs_spec m.1 g g root Hwf (agree_below_refl _ _) Hroot) in H
      by (intros p Hp; eapply wf_sources_below; eassumption).
    destruct (map_outcome (fused_port g) (inputs root)) as [ps | |] eqn:Hps;
      cbn [mbind outcome_bind] in H; [| discriminate | discriminate].
    destruct (validate_and_infer_types _ _ _) as [g3 | |] eqn:Hv;
      cbn [mbind outcome_bind] in H; [| discriminate | discriminate].
    injection H as <- <-. apply validate_inv in Hv as [s ->].
    exists m.1, root, g, root, ps, s, root.
    unfold matched_brgemm. rewrite Hroot. cbn. rewrite Hbr. auto 15.
  - destruct (fuse_output g m) as [[b g1] | |] eqn:Hout; cbn [mbind outcome_bind] in H;
      [| discriminate | discriminate].
    destruct (fuse_output_inv g m b g1 Hout)
      as (root' & a & c & bn & cn & data & bo & vdims & fused & Hr & Ha & Hb & Hbn & Hop
          & Hc & Hcn & Hdata & Hbo & Hvd & Hfuse & Hg1).
    rewrite Hroot in Hr. injection Hr as <-.
    assert (Hlt : (b < m.1)%nat).
    { subst b. apply (wf_source g m.1 root 0 a Hwf Hroot Ha). }
    set (bn' := on_outputs (fun os => <[0%nat := mkOut (tensor_shape bo) (mkPort vdims fused)]> os) bn) in Hg1.
    assert (Hsrc : forall p, p ∈ inputs bn -> ((source p).1 < b)%nat).
    { intros p Hp. eapply wf_sources_below; eassumption. }
    assert (Hb1 : g1 !! b = Some bn').
    { rewrite Hg1, list_lookup_fmap.
      rewrite list_lookup_insert_eq by (eapply lookup_lt_Some; exact Hbn). cbn. f_equal.
      apply redirect_id. intros p Hp Heq. apply Hsrc in Hp. rewrite Heq in Hp. lia. }
    assert (Hag : agree_below b g g1).
    { intros n Hn. rewrite Hg1, list_lookup_fmap. rewrite list_lookup_insert_ne by lia.
      destruct (g !! n) as [nd |] eqn:Hnd; [| reflexivity]. cbn. f_equal.
      apply (redirect_below g m _ n nd Hwf Hnd). lia. }
    rewrite (fuse_inputs_spec b g g1 bn' Hwf Hag Hb1 Hsrc) in H.
    change (inputs bn') with (inputs bn) in H.
    destruct (map_outcome (fused_port g) (inputs bn)) as [ps | |] eqn:Hps;
      cbn [mbind outcome_bind] in H; [| discriminate | discriminate].
    destruct (validate_and_infer_types _ _ _) as [g3 | |] eqn:Hv;
      cbn [mbind outcome_bind] in H; [| discriminate | discriminate].
    injection H as <- <-. apply validate_inv in Hv as [s ->].
    exists b, bn, g1, bn', ps, s, root.
    assert (Hnb : op root <> Brgemm).
    { intros Hx. apply is_brgemm_op in Hx. congruence. }
    unfold matched_brgemm. rewrite Hroot. cbn. rewrite Hbr, Ha. cbn. rewrite <- Hb.
    auto 15.
Qed.

End CallbackFacts.

Section PortFacts.

Implicit Types (g : Graph) (nd : Node) (p : InputPort) (m v : Output) (b : node_id).

Lemma map_outcome_lookup {A B} (f : A -> outcome B) (l : list A) (bs : list B) (i : nat) (a : A) :
  map_outcome f l = Ok bs -> l !! i = Some a -> exists y, bs !! i = Some y /\ f a = Ok y.
Proof.
  revert bs i. induction l as [| a' l' IH]; intros bs i H Hi; [discriminate |].
  cbn [map_outcome] in H. inv_ok H. injection H as <-.
  destruct i as [| i'].
  - injection Hi as ->. eexists. split; [reflexivity | eassumption].
  - cbn in Hi. destruct (IH _ i' eq_refl Hi) as (y & Hy & Hfy).
    exists y. split; [exact Hy | exact Hfy].
Qed.

Lemma map_outcome_length {A B} (f : A -> outcome B) (l : list A) (bs : list B) :
  map_outcome f l = Ok bs -> length bs = length l.
Proof.
  revert bs. induction l as [| a' l' IH]; intros bs H.
  - injection H as <-. reflexivity.
  - cbn [map_outcome] in H. inv_ok H. injection H as <-. cbn. f_equal. apply IH. reflexivity.
Qed.

Lemma is_supported_transpose_true g v :
  is_supported_transpose g v = Ok true ->
  exists nd, g !! v.1 = Some nd /\ op nd = Transpose.
Proof.
  intros H. unfold is_supported_transpose in H. inv_ok H; [| discriminate H].
  match goal with E : get_node _ _ = Ok ?x |- _ => exists x; apply get_node_Ok in E end.
  match goal with E : is_transpose _ = true |- _ => apply is_transpose_op in E end.
  auto.
Qed.

(** What [fused_port] returned: the port itself when its source is not an
    eligible transpose, and otherwise a port on the data input of the
    transpose, with the shape of that input and the composed layout. *)
Lemma fused_port_inv g p p' :
  wf g = true -> fused_port g p = Ok p' ->
  (is_supported_transpose g (source p) = Ok false /\ p' = p)
  \/ (is_supported_transpose g (source p) = Ok true
      /\ exists tr x c cn data vdims fused,
           g !! (source p).1 = Some tr /\ op tr = Transpose /\ inputs tr = [x; c]
           /\ g !! (source c).1 = Some cn /\ op cn = Constant data
           /\ get_vdims g (source x) = Ok vdims
           /\ fuse_layouts (cast_vector_size_t data) (get_layout (in_port p)) = Ok fused
           /\ p' = mkIn (source x) (mkPort vdims fused)).
Proof.
  intros Hwf H. unfold fused_port in H.
  destruct (is_supported_transpose g (source p)) as [[|] | |] eqn:Hs;
    cbn [mbind outcome_bind] in H; [| | discriminate | discriminate].
  - right. split; [reflexivity |].
    destruct (is_supported_transpose_true _ _ Hs) as (tr & Htr & Hop).
    destruct (wf_transpose g _ tr Hwf Htr Hop) as (x & c & o & Hin & _).
    inv_ok H. injection H as <-.
    match goal with E : get_node _ _ = Ok ?t |- _ =>
      apply get_node_Ok in E; rewrite Htr in E; injection E as <- end.
    match goal with E : input_value tr 0 = Ok _ |- _ =>
      apply input_value_Ok in E as (x' & Hx' & ->); rewrite Hin in Hx'; injection Hx' as <- end.
    match goal with E : _ <$> get_input_node g tr 1 = Ok _ |- _ =>
      apply fmap_Ok in E as (cn & (c' & Hc' & Hcn)%get_input_node_Ok & ->);
      rewrite Hin in Hc'; injection Hc' as <- end.
    match goal with E : _ <$> deref (as_constant cn) = Ok _ |- _ =>
      apply fmap_Ok in E as (data & Hdata%deref_Ok%as_constant_op & ->) end.
    eexists tr, x, c, cn, data, _, _. repeat (split; [eassumption || reflexivity |]).
    reflexivity.
  - left. injection H as <-. split; reflexivity.
Qed.

(** The loop rewires the Brgemm to values produced before it. *)
Lemma fused_port_source_below g p p' b :
  wf g = true -> fused_port g p = Ok p' -> ((source p).1 < b)%nat -> ((source p').1 < b)%nat.
Proof.
  intros Hwf H Hlt.
  destruct (fused_port_inv g p p' Hwf H) as [[_ ->] | [_ (tr & x & c & cn & data & vd & L & Htr & _ & Hin & _ & _ & _ & _ & ->)]];
    [exact Hlt |].
  cbn. destruct (wf_source g _ tr 0 x Hwf Htr) as [Hx _]; [rewrite Hin; reflexivity |]. lia.
Qed.

(** The graph a call leaves, read at its ports. *)
Lemma final_lookup_brgemm (g1 : Graph) b nd1 ps s :
  g1 !! b = Some nd1 ->
  set_tensor_shape (<[b := on_inputs (fun _ => ps) nd1]> g1) (b, 0%nat) s !! b
  = Some (mkNode (op nd1) ps (alter (with_tensor_shape s) 0%nat (outputs nd1))).
Proof.
  intros H. unfold set_tensor_shape. cbn [fst snd]. rewrite list_lookup_alter_eq.
  rewrite list_lookup_insert_eq by (eapply lookup_lt_Some; exact H). reflexivity.
Qed.

Lemma final_lookup_other (g1 : Graph) b nd2 s (n : node_id) :
  n <> b -> set_tensor_shape (<[b := nd2]> g1) (b, 0%nat) s !! n = g1 !! n.
Proof.
  intros H. unfold set_tensor_shape. cbn [fst snd].
  rewrite list_lookup_alter_ne by congruence. apply list_lookup_insert_ne. congruence.
Qed.

Lemma get_vdims_Ok g v s : get_vdims g v = Ok s <-> tensor_shape <$> output_port g v = Some s.
Proof.
  unfold get_vdims, output_port, get_node. destruct (g !! v.1) as [nd |]; cbn; [| split; discriminate].
  destruct (outputs nd !! v.2); cbn; split; congruence.
Qed.

End PortFacts.

(** Both inputs of the sample come from a Transpose of order [1, 0, 2]:
    one call rewires both to the parameters and records the order on both
    ports. *)
Example both_inputs_fused :
  let g' := Samples.graph_after
              (callback Samples.keep_shape Samples.both_inputs_transposed (6%nat, 0%nat)) in
  input_port g' (6%nat, 0%nat) = Some (mkIn (0%nat, 0%nat) (mkPort [4; 8; 16]%N [1; 0; 2]%N))
  /\ input_port g' (6%nat, 1%nat) = Some (mkIn (3%nat, 0%nat) (mkPort [16; 8; 32]%N [1; 0; 2]%N)).
Proof. split; reflexivity. Qed.

Section OutputFacts.

Implicit Types (g : Graph) (nd : Node) (p : InputPort) (m v : Output) (b : node_id).

(** What the pattern [m_transpose2] has matched. *)
Lemma m_transpose2_inv g m :
  m_transpose2 g m = true ->
  exists root a c bn cn data,
    g !! m.1 = Some root /\ op root = Transpose /\ inputs root = [a; c]
    /\ g !! (source a).1 = Some bn /\ op bn = Brgemm
    /\ g !! (source c).1 = Some cn /\ op cn = Constant data
    /\ is_supported_transpose g m = Ok true
    /\ is_supported_transpose_order (cast_vector_int32 data) = true.
Proof.
  unfold m_transpose2, m_brgemm_out. intros H.
  destruct (g !! m.1) as [root |] eqn:Hroot; [| discriminate].
  destruct (op root) eqn:Hop; try discriminate.
  destruct (inputs root) as [| a [| c [| ? ?]]] eqn:Hin; try discriminate.
  apply andb_true_iff in H as [H1 H2].
  destruct (g !! (source a).1) as [bn |] eqn:Hbn; [| discriminate].
  destruct (op bn) eqn:Hopb; try discriminate.
  destruct (g !! (source c).1) as [cn |] eqn:Hcn; [| discriminate].
  apply andb_true_iff in H2 as [H2 H3].
  unfold is_constant in H2. destruct (as_constant cn) as [data |] eqn:Hdata; [| discriminate].
  apply as_constant_op in Hdata.
  exists root, a, c, bn, cn, data. repeat (split; [assumption || reflexivity |]).
  assert (Hs : is_supported_transpose g m = Ok true).
  { unfold holds in H3. destruct (is_supported_transpose g m) as [[|] | |]; congruence. }
  split; [exact Hs |].
  assert (Hr : get_node g m.1 = Ok root) by (apply get_node_Ok; exact Hroot).
  assert (Ht : is_transpose root = true) by (apply is_transpose_op; exact Hop).
  assert (Hord : get_input_node g root 1 = Ok cn).
  { apply get_input_node_Ok. exists c. rewrite Hin. auto. }
  apply as_constant_op in Hdata. unfold is_supported_transpose in Hs.
  rewrite Hr in Hs. cbn [mbind outcome_bind] in Hs. rewrite Ht in Hs. cbn [negb] in Hs.
  rewrite Hord in Hs. cbn [mbind outcome_bind] in Hs. rewrite Hdata in Hs. congruence.
Qed.

End OutputFacts.

(** The call on the Transpose of order [1, 0, 2] over the output of the
    Brgemm: the descriptor of that output gets the transposed shape and the
    order, and the two consumers of the Transpose consume the Brgemm. *)
Example output_fused :
  let g' := Samples.graph_after
              (callback Samples.keep_shape Samples.output_transposed (4%nat, 0%nat)) in
  out_port <$> output_port g' (2%nat, 0%nat) = Some (mkPort [4; 8; 16]%N [1; 0; 2]%N)
  /\ source <$> input_port g' (5%nat, 0%nat) = Some (2%nat, 0%nat)
  /\ source <$> input_port g' (7%nat, 0%nat) = Some (2%nat, 0%nat)
  /\ get_target_inputs g' (4%nat, 0%nat) = [].
Proof. repeat split; reflexivity. Qed.

(** ** Layouts stay permutations *)

Section Validity.


Lemma cast_vector_size_t_length (data : list Z) :
  length (cast_vector_size_t data) = length data.
Proof. apply length_fmap. Qed.

End Validity.

Section PortsAfter.

Variable infer_output_shape : Node -> list VectorDims -> outcome VectorDims.

Implicit Types (g : Graph) (nd : Node) (p : InputPort) (m v : Output) (b : node_id).

Lemma transpose_order_inv g (n : node_id) data :
  transpose_order g n = Some data ->
  exists tr c cn, g !! n = Some tr /\ op tr = Transpose /\ inputs tr !! 1%nat = Some c
                  /\ g !! (source c).1 = Some cn /\ op cn = Constant data.
Proof.
  unfold transpose_order. intros H.
  destruct (g !! n) as [tr |] eqn:Htr; [| discriminate]. cbn in H.
  destruct (is_transpose tr) eqn:Hop; [| discriminate]. apply is_transpose_op in Hop.
  destruct (inputs tr !! 1%nat) as [c |] eqn:Hc; [| discriminate]. cbn in H.
  destruct (g !! (source c).1) as [cn |] eqn:Hcn; [| discriminate]. cbn in H.
  apply as_constant_op in H. exists tr, c, cn. auto.
Qed.




End PortsAfter.



(** ** The scan *)

Section ScanFacts.

Variable infer_output_shape : Node -> list VectorDims -> outcome VectorDims.

Lemma find_match_None (g : Graph) :
  find_match g = None <-> forall n : node_id, candidate g n = false.
Proof.
  unfold find_match. split.
  - intros H n. destruct (decide (n < length g)%nat) as [Hlt | Hge].
    + apply (find_none _ _ H). apply in_seq. lia.
    + unfold candidate, m_brgemm_or_transpose, m_brgemm_in0, m_brgemm_in1, m_transpose2.
      cbn [fst]. rewrite lookup_ge_None_2 by lia. apply andb_false_r.
  - intros H. destruct (find (candidate g) (seq 0 (length g))) as [n |] eqn:Hf; [| reflexivity].
    apply find_some in Hf as [_ Hn]. rewrite H in Hn. discriminate.
Qed.

(** A scan of a graph without a match returns it untouched, whatever the
    bound on the number of callbacks. *)
Lemma run_no_match (g : Graph) (fuel : nat) :
  find_match g = None -> run infer_output_shape fuel g = Some (Ok (0%nat, g)).
Proof. intros H. destruct fuel; cbn; rewrite H; reflexivity. Qed.

(** A scan that ran to completion stops on a graph without a match. *)
Lemma run_finished (fuel : nat) : forall (g : Graph) (k : nat) (g' : Graph),
  run infer_output_shape fuel g = Some (Ok (k, g')) -> find_match g' = None.
Proof.
  induction fuel as [| fuel IH]; intros g k g' H; cbn in H.
  - destruct (find_match g) eqn:Hf; [discriminate |]. injection H as <- <-. exact Hf.
  - destruct (find_match g) as [root |] eqn:Hf; [| injection H as <- <-; exact Hf].
    destruct (callback infer_output_shape g (root, 0%nat)) as [[mutated g1] | |];
      [| discriminate | discriminate].
    destruct (run infer_output_shape fuel g1) as [[[k1 g2] | |] |] eqn:Hrun;
      try discriminate.
    injection H as <- <-. eapply IH. exact Hrun.
Qed.

End ScanFacts.

(** ** Every scan ends *)

Section Termination.

Variable infer_output_shape : Node -> list VectorDims -> outcome VectorDims.

Implicit Types (g : Graph) (nd : Node) (p : InputPort) (m v : Output) (b : node_id).

(** The nodes of the graph a call leaves: the Brgemm has the ports the
    loop computed, and, when the root was a Transpose, the other nodes
    consume the Brgemm where they consumed the root. *)
Lemma callback_nodes g m (r : bool) g' :
  wf g = true -> callback infer_output_shape g m = Ok (r, g') ->
  exists b bn ps outs' root (redir : bool),
    g !! b = Some bn /\ op bn = Brgemm /\ g !! m.1 = Some root
    /\ map_outcome (fused_port g) (inputs bn) = Ok ps
    /\ length outs' = length (outputs bn)
    /\ g' !! b = Some (mkNode Brgemm ps outs')
    /\ (forall k : node_id, k <> b ->
          g' !! k = (if redir then redirect m (b, 0%nat) else fun nd => nd) <$> g !! k)
    /\ (if redir then op root <> Brgemm /\ (b < m.1)%nat /\ exists a, inputs root !! 0%nat = Some a
        else b = m.1).
Proof.
  intros Hwf H.
  destruct (callback_inv infer_output_shape g m r g' Hwf H)
    as (b & bn & g1 & nd1 & ps & s & root & Hm & Hbn & Hop & Hroot & Hcase & Hb1 & Hin1 & Hps & -> & ->).
  destruct Hcase as [(Hbr & -> & ->) | (Hnbr & Hlt & Hout)].
  - exists m.1, bn, ps, (alter (with_tensor_shape s) 0%nat (outputs bn)), root, false.
    rewrite Hbn in Hb1. injection Hb1 as <-.
    repeat (split; [assumption || reflexivity || apply length_alter |]).
    split; [rewrite (final_lookup_brgemm _ _ _ _ _ Hbn), Hop; reflexivity |].
    split; [| reflexivity].
    intros k Hk. rewrite final_lookup_other by exact Hk. destruct (g !! k); reflexivity.
  - destruct (fuse_output_inv g m b g1 Hout)
      as (root' & a & c & bn' & cn & data & bo & vd & L & Hr & Ha & Hb & Hbn' & _
          & Hc & Hcn & Hdata & Hbo & Hvd & HL & Hg1).
    rewrite Hroot in Hr. injection Hr as <-. rewrite Hbn in Hbn'. injection Hbn' as <-.
    assert (Hnd1 : op nd1 = Brgemm /\ length (outputs nd1) = length (outputs bn)).
    { rewrite Hg1, list_lookup_fmap in Hb1.
      rewrite list_lookup_insert_eq in Hb1 by (eapply lookup_lt_Some; exact Hbn).
      cbn in Hb1. injection Hb1 as <-. cbn. split; [exact Hop | apply length_insert]. }
    destruct Hnd1 as [Hop1 Hlen1].
    exists b, bn, ps, (alter (with_tensor_shape s) 0%nat (outputs nd1)), root, true.
    repeat (split; [assumption || reflexivity |]).
    split; [rewrite length_alter; exact Hlen1 |].
    split; [rewrite (final_lookup_brgemm _ _ _ _ _ Hb1), Hop1; reflexivity |].
    split; [| split; [exact Hnbr | split; [exact Hlt | exists a; exact Ha]]].
    intros k Hk. rewrite final_lookup_other by exact Hk.
    rewrite Hg1, list_lookup_fmap. rewrite list_lookup_insert_ne by congruence. reflexivity.
Qed.


Lemma forallb_pointwise {A} (f h : A -> bool) (l : list A) :
  (forall x, f x = h x) -> forallb f l = forallb h l.
Proof. intros H. induction l as [| a l' IH]; cbn; [reflexivity | rewrite H, IH; reflexivity]. Qed.

(** Whether an input is well formed depends on the graph through the
    number of outputs of its nodes only. *)
Lemma wf_input_outputs g g' (n : node_id) p :
  (forall k : node_id, (fun nd => length (outputs nd)) <$> g' !! k
                       = (fun nd => length (outputs nd)) <$> g !! k) ->
  wf_input g' n p = wf_input g n p.
Proof.
  intros H. unfold wf_input. specialize (H (source p).1).
  destruct (g' !! (source p).1), (g !! (source p).1); cbn in H; try discriminate; [| reflexivity].
  injection H as ->. reflexivity.
Qed.

Lemma wf_node_inputs g (n : node_id) nd p :
  wf g = true -> g !! n = Some nd -> p ∈ inputs nd -> wf_input g n p = true.
Proof.
  intros Hwf Hn Hp. pose proof (wf_lookup _ _ _ Hwf Hn) as H. unfold wf_node in H.
  apply andb_true_iff in H as [H _]. rewrite forallb_forall in H.
  apply H, list_elem_of_In. exact Hp.
Qed.

(** The port the loop writes is well formed where the port it read was. *)
Lemma fused_port_wf_input g b p p' :
  wf g = true -> wf_input g b p = true -> fused_port g p = Ok p' -> wf_input g b p' = true.
Proof.
  intros Hwf Hp H.
  destruct (fused_port_inv g p p' Hwf H)
    as [[_ ->] | [_ (tr & x & c & cn & data & vd & L & Htr & _ & Hin & _ & _ & _ & _ & ->)]];
    [exact Hp |].
  apply wf_input_spec in Hp as [Hlt _]. apply wf_input_spec. cbn.
  destruct (wf_source g _ tr 0 x Hwf Htr) as [Hx Hsrc]; [rewrite Hin; reflexivity |].
  split; [lia | exact Hsrc].
Qed.

Lemma map_outcome_Forall2 {A B} (f : A -> outcome B) (l : list A) (bs : list B) :
  map_outcome f l = Ok bs -> Forall2 (fun a y => f a = Ok y) l bs.
Proof.
  revert bs. induction l as [| a l' IH]; intros bs H.
  - injection H as <-. constructor.
  - cbn [map_outcome] in H. destruct (f a) as [y | |] eqn:Hy; cbn in H; try discriminate.
    destruct (map_outcome f l') as [ys | |]; cbn in H; try discriminate.
    injection H as <-. constructor; [exact Hy | apply IH; reflexivity].
Qed.

(** The callback keeps the graph well formed. *)
Lemma callback_wf g m (r : bool) g' :
  wf g = true -> callback infer_output_shape g m = Ok (r, g') -> wf g' = true.
Proof.
  intros Hwf H.
  destruct (callback_nodes g m r g' Hwf H)
    as (b & bn & ps & outs' & root & redir & Hbn & Hop & Hroot & Hps & Hlen & Hb' & Hother & Hredir).
  assert (Hsig : forall k : node_id, (fun nd => length (outputs nd)) <$> g' !! k
                                     = (fun nd => length (outputs nd)) <$> g !! k).
  { intros k. destruct (decide (k = b)) as [-> | Hk].
    - rewrite Hb', Hbn. cbn. f_equal. exact Hlen.
    - rewrite (Hother k Hk). destruct (g !! k) as [nd |]; [| reflexivity].
      destruct redir; reflexivity. }
  apply wf_intro. intros k nd' Hk. unfold wf_node.
  rewrite (forallb_pointwise _ (wf_input g k)) by (intros x; apply wf_input_outputs, Hsig).
  destruct (decide (k = b)) as [-> | Hkb].
  - rewrite Hb' in Hk. injection Hk as <-. cbn.
    destruct (wf_brgemm g b bn Hwf Hbn Hop) as [o Ho]. rewrite Ho in Hlen.
    rewrite Hlen. cbn. rewrite andb_true_r. apply forallb_forall. intros p' Hp'.
    apply list_elem_of_In, list_elem_of_lookup in Hp' as [i Hi].
    apply map_outcome_Forall2 in Hps.
    destruct (Forall2_lookup_r _ _ _ _ _ Hps Hi) as (p & Hp & Hfp).
    apply (fused_port_wf_input g b p p' Hwf); [| exact Hfp].
    apply (wf_node_inputs g b bn p Hwf Hbn). apply list_elem_of_lookup. eauto.
  - rewrite (Hother k Hkb) in Hk. destruct (g !! k) as [nd |] eqn:Hnd; [| discriminate].
    injection Hk as <-. pose proof (wf_lookup _ _ _ Hwf Hnd) as Hnode.
    destruct redir; [| exact Hnode].
    destruct Hredir as (_ & Hlt & _). unfold wf_node in Hnode.
    apply andb_true_iff in Hnode as [Hin Hkind]. apply andb_true_iff. split.
    + unfold redirect. cbn. apply forallb_forall. intros q Hq.
      apply list_elem_of_In, list_elem_of_fmap in Hq as (p & -> & Hp).
      rewrite forallb_forall in Hin. specialize (Hin p (proj1 (list_elem_of_In _ _) Hp)).
      destruct (decide (source p = m)) as [Hs | Hs]; [| exact Hin].
      apply wf_input_spec in Hin as [Hpk _]. apply wf_input_spec. cbn. rewrite Hs in Hpk.
      split; [lia |]. exists bn. split; [exact Hbn |].
      destruct (wf_brgemm g b bn Hwf Hbn Hop) as [o ->]. cbn. lia.
    + unfold redirect. cbn. rewrite length_fmap. exact Hkind.
Qed.

Lemma sum_list_Forall2_le (l' l : list nat) :
  Forall2 le l' l -> (sum_list l' <= sum_list l)%nat.
Proof. induction 1; cbn; lia. Qed.

Lemma sum_list_Forall2_lt (l' l : list nat) (i x' x : nat) :
  Forall2 le l' l -> l' !! i = Some x' -> l !! i = Some x -> (x' < x)%nat ->
  (sum_list l' < sum_list l)%nat.
Proof.
  intros H. revert i. induction H as [| a' a l' l Ha Hl IH]; intros i Hi' Hi Hlt; [discriminate |].
  destruct i as [| i]; cbn in *.
  - injection Hi' as ->. injection Hi as ->. apply sum_list_Forall2_le in Hl. lia.
  - specialize (IH i Hi' Hi Hlt). lia.
Qed.

Lemma fused_port_source_le g p p' :
  wf g = true -> fused_port g p = Ok p' -> ((source p').1 <= (source p).1)%nat.
Proof.
  intros Hwf H. pose proof (fused_port_source_below g p p' (S (source p).1) Hwf H). lia.
Qed.

Lemma redirect_sources_le m b nd :
  (b < m.1)%nat -> Forall2 le (sources (redirect m (b, 0%nat) nd)) (sources nd).
Proof.
  intros Hlt. unfold sources, redirect. cbn. rewrite <- list_fmap_compose.
  apply Forall2_fmap, Forall2_same_length_lookup_2; [reflexivity |].
  intros i p q Hp Hq. rewrite Hp in Hq. injection Hq as <-. cbn.
  destruct (decide (source p = m)) as [-> | ?]; cbn; lia.
Qed.

(** A node in use that is not a result is consumed by some node. *)
Lemma live_consumed g (n : node_id) :
  is_live g n = true ->
  (exists nd, g !! n = Some nd /\ is_result nd = true)
  \/ (exists (k : node_id) nd p, g !! k = Some nd /\ p ∈ inputs nd /\ (source p).1 = n).
Proof.
  unfold is_live, live_nodes. rewrite bool_decide_eq_true.
  set (P := fun n : node_id =>
    (exists nd, g !! n = Some nd /\ is_result nd = true)
    \/ (exists (k : node_id) nd p, g !! k = Some nd /\ p ∈ inputs nd /\ (source p).1 = n)).
  assert (Hfold : forall (l : list (node_id * Node)) (acc : list node_id),
             (forall x, x ∈ l -> g !! x.1 = Some x.2) ->
             (forall y, y ∈ acc -> P y) ->
             forall y, y ∈ foldl visit acc l -> P y).
  { induction l as [| x l IH]; intros acc Hl Hacc y Hy; [apply Hacc; exact Hy |].
    cbn [foldl] in Hy. apply (IH (visit acc x)); [intros z Hz; apply Hl; right; exact Hz | | exact Hy].
    intros z Hz. unfold visit in Hz.
    destruct (is_result x.2 || bool_decide (x.1 ∈ acc)) eqn:Hv; [| apply Hacc; exact Hz].
    apply elem_of_cons in Hz as [-> | Hz].
    - apply orb_true_iff in Hv as [Hr | Hin].
      + left. exists x.2. split; [apply Hl; left | exact Hr].
      + apply Hacc. apply bool_decide_eq_true in Hin. exact Hin.
    - apply elem_of_app in Hz as [Hz | Hz]; [| apply Hacc; exact Hz].
      unfold sources in Hz. apply list_elem_of_fmap in Hz as (p & -> & Hp).
      right. exists x.1, x.2, p. split; [apply Hl; left | split; [exact Hp | reflexivity]]. }
  apply Hfold.
  - intros x Hx. rewrite elem_of_reverse in Hx. apply list_elem_of_lookup in Hx as [i Hi].
    rewrite list_lookup_imap in Hi. destruct (g !! i) as [nd |] eqn:Hnd; [| discriminate].
    injection Hi as <-. exact Hnd.
  - intros y Hy. inversion Hy.
Qed.

Lemma m_transpose_supported g v :
  m_transpose g v = true -> is_supported_transpose g v = Ok true.
Proof.
  unfold m_transpose. intros H.
  destruct (g !! v.1) as [nd |]; [| discriminate].
  destruct (op nd); try discriminate.
  destruct (inputs nd) as [| a [| c [| ? ?]]]; try discriminate.
  destruct (g !! (source c).1) as [cn |]; [| discriminate].
  apply andb_true_iff in H as [_ H]. unfold holds in H.
  destruct (is_supported_transpose g v) as [[|] | |]; congruence.
Qed.

(** A matched Brgemm has an input that an eligible transpose produces. *)
Lemma matched_brgemm_input g (root : node_id) nd :
  g !! root = Some nd -> op nd = Brgemm ->
  m_brgemm_or_transpose g (root, 0%nat) = true ->
  exists (i : nat) p, inputs nd !! i = Some p /\ is_supported_transpose g (source p) = Ok true.
Proof.
  intros Hnd Hop H. unfold m_brgemm_or_transpose, m_brgemm_in0, m_brgemm_in1, m_transpose2 in H.
  cbn [fst] in H. rewrite Hnd, Hop in H.
  destruct (inputs nd) as [| a [| c [| ? ?]]]; try discriminate.
  rewrite orb_false_r in H. apply orb_true_iff in H as [H | H];
    apply m_transpose_supported in H.
  - exists 0%nat, a. split; [reflexivity | exact H].
  - exists 1%nat, c. split; [reflexivity | exact H].
Qed.

(** A matched root that is not a Brgemm is matched by [m_transpose2]. *)
Lemma matched_transpose g (root : node_id) nd :
  g !! root = Some nd -> op nd <> Brgemm ->
  m_brgemm_or_transpose g (root, 0%nat) = true -> m_transpose2 g (root, 0%nat) = true.
Proof.
  intros Hnd Hop H. unfold m_brgemm_or_transpose, m_brgemm_in0, m_brgemm_in1 in H.
  cbn [fst] in H. rewrite Hnd in H. destruct (op nd); try exact H. congruence.
Qed.

(** A call on a match makes the weight of the graph smaller. *)
Lemma callback_decreases g (root : node_id) (r : bool) g' :
  wf g = true -> candidate g root = true ->
  callback infer_output_shape g (root, 0%nat) = Ok (r, g') ->
  (weight g' < weight g)%nat.
Proof.
  intros Hwf Hcand H. apply andb_true_iff in Hcand as [Hlive Hmatch].
  destruct (callback_nodes g _ r g' Hwf H)
    as (b & bn & ps & outs' & rnd & redir & Hbn & Hop & Hroot & Hps & Hlen & Hb' & Hother & Hredir).
  cbn [fst] in Hroot.
  assert (Hports : Forall2 le (sources (mkNode Brgemm ps outs')) (sources bn)).
  { unfold sources. cbn. apply Forall2_fmap.
    apply Forall2_same_length_lookup_2; [apply (map_outcome_length _ _ _ Hps) |].
    intros i p' p Hp' Hp. destruct (map_outcome_lookup _ _ _ _ _ Hps Hp) as (q & Hq & Hfp).
    rewrite Hp' in Hq. injection Hq as <-. apply (fused_port_source_le g p p' Hwf Hfp). }
  assert (Hredir_lt : redir = true -> (b < root)%nat).
  { intros ->. destruct Hredir as (_ & Hlt & _). exact Hlt. }
  assert (Hnodes : Forall2 (fun nd' nd => node_weight nd' <= node_weight nd)%nat g' g).
  { apply Forall2_lookup. intros k. destruct (decide (k = b)) as [-> | Hk].
    - rewrite Hb', Hbn. constructor. apply sum_list_Forall2_le. exact Hports.
    - rewrite (Hother k Hk). destruct (g !! k) as [nd |]; cbn; constructor.
      destruct redir; [| reflexivity].
      apply sum_list_Forall2_le, redirect_sources_le. cbn. auto. }
  assert (Hle : Forall2 le (node_weight <$> g') (node_weight <$> g)).
  { apply Forall2_fmap. exact Hnodes. }
  destruct redir.
  - destruct Hredir as (Hnbr & Hlt & a & Ha). cbn [fst] in Hlt.
    pose proof (matched_transpose g root rnd Hroot Hnbr Hmatch) as Hm2.
    destruct (m_transpose2_inv g _ Hm2) as (rnd' & a' & c & _ & _ & _ & Hr' & Hopr & _).
    cbn [fst] in Hr'. rewrite Hroot in Hr'. injection Hr' as <-.
    destruct (live_consumed g root Hlive)
      as [(nd & Hnd & Hres) | (k & nd & p & Hnd & Hp & Hsrc)].
    { rewrite Hroot in Hnd. injection Hnd as <-. unfold is_result in Hres.
      rewrite Hopr in Hres. discriminate. }
    apply list_elem_of_lookup in Hp as [i Hi].
    destruct (wf_source g k nd i p Hwf Hnd Hi) as (Hpk & src & Hsrcnd & Hidx).
    rewrite Hsrc, Hroot in Hsrcnd. injection Hsrcnd as <-.
    destruct (wf_transpose g root rnd Hwf Hroot Hopr) as (? & ? & o & _ & Hout).
    rewrite Hout in Hidx. cbn in Hidx.
    assert (Hpm : source p = (root, 0%nat)).
    { destruct (source p) as [s1 s2]. cbn in *. f_equal; lia. }
    assert (Hkb : k <> b) by lia.
    apply (sum_list_Forall2_lt _ _ k (node_weight (redirect (root, 0%nat) (b, 0%nat) nd))
             (node_weight nd) Hle).
    + rewrite list_lookup_fmap, (Hother k Hkb), Hnd. reflexivity.
    + rewrite list_lookup_fmap, Hnd. reflexivity.
    + apply (sum_list_Forall2_lt _ _ i b root).
      * apply redirect_sources_le. exact Hlt.
      * unfold sources, redirect. cbn. rewrite !list_lookup_fmap, Hi. cbn.
        rewrite decide_True by exact Hpm. reflexivity.
      * unfold sources. rewrite list_lookup_fmap, Hi. cbn. rewrite Hpm. reflexivity.
      * exact Hlt.
  - cbn [fst] in Hredir. subst b. rewrite Hroot in Hbn. injection Hbn as ->.
    destruct (matched_brgemm_input g root bn Hroot Hop Hmatch) as (i & p & Hi & Hs).
    destruct (map_outcome_lookup _ _ _ _ _ Hps Hi) as (p' & Hp' & Hfp).
    destruct (fused_port_inv g p p' Hwf Hfp)
      as [[Hs' _] | [_ (tr & x & c & cn & data & vd & L & Htr & _ & Hin & _ & _ & _ & _ & ->)]];
      [congruence |].
    destruct (wf_source g _ tr 0 x Hwf Htr) as [Hx _]; [rewrite Hin; reflexivity |].
    apply (sum_list_Forall2_lt _ _ root (node_weight (mkNode Brgemm ps outs')) (node_weight bn) Hle).
    + rewrite list_lookup_fmap, Hb'. reflexivity.
    + rewrite list_lookup_fmap, Hroot. reflexivity.
    + apply (sum_list_Forall2_lt _ _ i (source x).1 (source p).1 Hports).
      * unfold sources. cbn. rewrite list_lookup_fmap, Hp'. reflexivity.
      * unfold sources. rewrite list_lookup_fmap, Hi. reflexivity.
      * exact Hx.
Qed.

(** With more fuel than the weight of the graph, the scan of a
    well-formed graph ends: at a fixed point, or in a failure of the
    callback. *)
Lemma run_ends (fuel : nat) : forall g,
  wf g = true -> (weight g < fuel)%nat ->
  exists res, run infer_output_shape fuel g = Some res.
Proof.
  induction fuel as [| fuel IH]; intros g Hwf Hfuel; [lia |].
  cbn [run]. destruct (find_match g) as [root |] eqn:Hf; [| eexists; reflexivity].
  apply find_some in Hf as [_ Hcand].
  destruct (callback infer_output_shape g (root, 0%nat)) as [[mutated g'] | msg |] eqn:Hcb;
    [| eexists; reflexivity | eexists; reflexivity].
  pose proof (callback_wf g _ mutated g' Hwf Hcb) as Hwf'.
  pose proof (callback_decreases g root mutated g' Hwf Hcand Hcb) as Hdec.
  destruct (IH g' Hwf') as [res Hres]; [lia |]. rewrite Hres.
  destruct res as [[k g''] | |]; eexists; reflexivity.
Qed.

End Termination.

(** ** The callback is defined on a match *)

Section Progress.

Variable infer_output_shape : Node -> list VectorDims -> outcome VectorDims.

Implicit Types (g : Graph) (nd : Node) (p : InputPort) (m v : Output) (b : node_id).

Lemma fuse_loop_defined (layout_1 layout_2 : list N) (todo : list nat) (fused : list N) :
  (forall i, i ∈ todo -> (i < length layout_2)%nat) ->
  fuse_loop layout_1 layout_2 todo fused <> Undefined.
Proof.
  revert fused. induction todo as [| i todo' IH]; intros fused Hin; [discriminate |].
  destruct (lookup_lt_is_Some_2 layout_2 i) as [v Hv]; [apply Hin; left |].
  cbn [fuse_loop]. rewrite Hv. cbn [deref mbind outcome_bind].
  destruct (v <? N.of_nat (length layout_1))%N eqn:Hlt; [| discriminate].
  apply N.ltb_lt in Hlt. rewrite (lookup_at_index _ _ Hlt). cbn [deref mbind outcome_bind].
  apply IH. intros j Hj. apply Hin. right. exact Hj.
Qed.

(** The composer returns or stops in one of its two assertions. *)
Lemma fuse_layouts_defined (layout_1 layout_2 : list N) :
  fuse_layouts layout_1 layout_2 <> Undefined.
Proof.
  unfold fuse_layouts. destruct (empty layout_1); [discriminate |].
  destruct (empty layout_2); [discriminate |].
  destruct (length layout_1 =? length layout_2)%nat eqn:Hlen; [| discriminate].
  apply Nat.eqb_eq in Hlen. apply fuse_loop_defined.
  intros i Hi. apply elem_of_seq in Hi. lia.
Qed.

Lemma is_supported_transpose_returns g v :
  wf g = true -> (v.1 < length g)%nat -> exists ok : bool, is_supported_transpose g v = Ok ok.
Proof.
  intros Hwf Hv. destruct (lookup_lt_is_Some_2 g v.1 Hv) as [nd Hnd].
  unfold is_supported_transpose.
  assert (Hn : get_node g v.1 = Ok nd) by (apply get_node_Ok; exact Hnd).
  rewrite Hn. cbn [mbind outcome_bind].
  destruct (is_transpose nd) eqn:Htr; cbn [negb]; [| eexists; reflexivity].
  apply is_transpose_op in Htr.
  destruct (wf_transpose _ _ _ Hwf Hnd Htr) as (a & c & o & Hin & _).
  destruct (wf_source g v.1 nd 1 c Hwf Hnd) as (_ & cn & Hcn & _); [rewrite Hin; reflexivity |].
  assert (Hord : get_input_node g nd 1 = Ok cn).
  { apply get_input_node_Ok. exists c. rewrite Hin. auto. }
  rewrite Hord. cbn [mbind outcome_bind]. destruct (as_constant cn); eexists; reflexivity.
Qed.

Lemma wf_get_vdims g (n : node_id) p :
  wf_input g n p = true -> exists s, get_vdims g (source p) = Ok s.
Proof.
  intros (_ & src & Hsrc & Hidx)%wf_input_spec.
  destruct (lookup_lt_is_Some_2 _ _ Hidx) as [o Ho].
  exists (tensor_shape o). apply get_vdims_Ok. unfold output_port. rewrite Hsrc. cbn.
  rewrite Ho. reflexivity.
Qed.

Lemma fused_port_defined g b p :
  wf g = true -> wf_input g b p = true -> fused_port g p <> Undefined.
Proof.
  intros Hwf Hp. unfold fused_port.
  destruct (is_supported_transpose_returns g (source p) Hwf) as [ok Hok].
  { apply wf_input_spec in Hp as (_ & src & Hsrc & _). eapply lookup_lt_Some. exact Hsrc. }
  rewrite Hok. cbn [mbind outcome_bind]. destruct ok; [| discriminate].
  destruct (is_supported_transpose_true g _ Hok) as (tr & Htr & Hop).
  destruct (wf_transpose _ _ _ Hwf Htr Hop) as (x & c & o & Hin & _).
  destruct (wf_source g _ tr 1 c Hwf Htr) as (_ & cn & Hcn & _); [rewrite Hin; reflexivity |].
  assert (Hn : get_node g (source p).1 = Ok tr) by (apply get_node_Ok; exact Htr).
  assert (Hord : get_input_node g tr 1 = Ok cn).
  { apply get_input_node_Ok. exists c. rewrite Hin. auto. }
  assert (Hx : input_value tr 0 = Ok (source x)).
  { apply input_value_Ok. exists x. rewrite Hin. auto. }
  rewrite Hn. cbn [mbind outcome_bind]. rewrite Hord. cbn [fmap outcome_fmap mbind outcome_bind].
  rewrite Hx. cbn [mbind outcome_bind].
  unfold is_supported_transpose in Hok. rewrite Hn in Hok. cbn [mbind outcome_bind] in Hok.
  apply is_transpose_op in Hop. rewrite Hop in Hok. cbn [negb] in Hok.
  rewrite Hord in Hok. cbn [mbind outcome_bind] in Hok.
  destruct (as_constant cn) as [data |]; [| discriminate Hok].
  cbn [deref fmap outcome_fmap mbind outcome_bind].
  destruct (wf_get_vdims g (source p).1 x) as [s Hs].
  { apply (wf_node_inputs g _ tr x Hwf Htr). rewrite Hin. left. }
  rewrite Hs. cbn [mbind outcome_bind].
  pose proof (fuse_layouts_defined (cast_vector_size_t data) (get_layout (in_port p))) as Hf.
  destruct (fuse_layouts _ _); [discriminate | discriminate | congruence].
Qed.

Lemma map_outcome_defined {A B} (f : A -> outcome B) (l : list A) :
  (forall a, a ∈ l -> f a <> Undefined) -> map_outcome f l <> Undefined.
Proof.
  induction l as [| a l' IH]; intros H; [discriminate |].
  cbn [map_outcome]. pose proof (H a ltac:(left)) as Ha.
  destruct (f a); cbn [mbind outcome_bind]; [| discriminate | congruence].
  assert (Hl : map_outcome f l' <> Undefined) by (apply IH; intros; apply H; right; assumption).
  destruct (map_outcome f l'); cbn; [discriminate | discriminate | congruence].
Qed.

Lemma input_shapes_returns b g G (ps : list InputPort) :
  agree_below b g G -> (forall p, p ∈ ps -> wf_input g b p = true) ->
  exists ss, input_shapes G ps = Ok ss.
Proof.
  intros Hag. induction ps as [| p ps' IH]; intros H; [eexists; reflexivity |].
  cbn [input_shapes]. pose proof (H p ltac:(left)) as Hp.
  destruct (wf_get_vdims g b p Hp) as [s Hs].
  apply wf_input_spec in Hp as [Hlt _].
  rewrite (get_vdims_agree b g G) by assumption. rewrite Hs. cbn [mbind outcome_bind].
  destruct IH as [ss Hss]; [intros q Hq; apply H; right; exact Hq |].
  rewrite Hss. eexists. reflexivity.
Qed.

(** Lines 89-103 on a root that [m_transpose2] matched: they return, or
    stop in an assertion of the composer. *)
Lemma fuse_output_defined g m :
  wf g = true -> m_transpose2 g m = true -> m.2 = 0%nat -> fuse_output g m <> Undefined.
Proof.
  intros Hwf Hm Hm2.
  destruct (m_transpose2_inv g m Hm)
    as (root & a & c & bn & cn & data & Hroot & Hop & Hin & Hbn & Hopb & Hcn & Hdata & _).
  destruct (wf_brgemm g _ bn Hwf Hbn Hopb) as [bo Hbo].
  destruct (wf_transpose g _ root Hwf Hroot Hop) as (? & ? & o & _ & Hout).
  unfold fuse_output.
  assert (E1 : get_node g m.1 = Ok root) by (apply get_node_Ok; exact Hroot).
  assert (E2 : input_value root 0 = Ok (source a)).
  { apply input_value_Ok. exists a. rewrite Hin. auto. }
  assert (E3 : get_node g (source a).1 = Ok bn) by (apply get_node_Ok; exact Hbn).
  assert (E4 : is_brgemm bn = true) by (apply is_brgemm_op; exact Hopb).
  assert (E5 : get_input_node g root 1 = Ok cn).
  { apply get_input_node_Ok. exists c. rewrite Hin. auto. }
  assert (E6 : as_constant cn = Some data) by (apply as_constant_op; exact Hdata).
  assert (E7 : get_vdims g m = Ok (tensor_shape o)).
  { apply get_vdims_Ok. unfold output_port. rewrite Hroot. cbn. rewrite Hout, Hm2. reflexivity. }
  rewrite E1. cbn [mbind outcome_bind]. rewrite E2. cbn [mbind outcome_bind].
  rewrite E3. cbn [mbind outcome_bind]. rewrite E4. cbn [negb].
  rewrite E5. cbn [fmap outcome_fmap mbind outcome_bind].
  rewrite Hbo. cbn [lookup list_lookup deref fmap outcome_fmap mbind outcome_bind].
  rewrite E7. cbn [mbind outcome_bind]. rewrite E6. cbn [deref fmap outcome_fmap mbind outcome_bind].
  pose proof (fuse_layouts_defined (get_layout (out_port bo)) (cast_vector_size_t data)) as Hf.
  destruct (fuse_layouts _ _); cbn [mbind outcome_bind]; [discriminate | discriminate | congruence].
Qed.

(** On a root that the pattern matched, in a well-formed graph, the
    callback returns or stops in an assertion: of the composer (lines 79
    and 82) or of the shape inference. *)
Lemma callback_defined g m :
  wf g = true -> m_brgemm_or_transpose g m = true -> m.2 = 0%nat ->
  (forall nd ss, infer_output_shape nd ss <> Undefined) ->
  callback infer_output_shape g m <> Undefined.
Proof.
  intros Hwf Hm Hm2 Hinfer.
  assert (Hroot : exists root, g !! m.1 = Some root).
  { unfold m_brgemm_or_transpose, m_brgemm_in0, m_brgemm_in1, m_transpose2 in Hm.
    destruct (g !! m.1) as [root |]; [eexists; reflexivity | discriminate]. }
  destruct Hroot as [root Hroot]. unfold callback.
  assert (E1 : get_node g m.1 = Ok root) by (apply get_node_Ok; exact Hroot).
  rewrite E1. cbn [mbind outcome_bind].
  assert (Hloop : forall b G nd1 bn,
            agree_below b g G -> g !! b = Some bn -> G !! b = Some nd1 -> inputs nd1 = inputs bn ->
            (g2 ← fuse_inputs b G; g3 ← validate_and_infer_types infer_output_shape b g2;
             Ok (true, g3)) <> Undefined).
  { intros b G nd1 bn Hag Hbn Hb1 Hin1.
    assert (Hsrc : forall p, p ∈ inputs nd1 -> ((source p).1 < b)%nat).
    { rewrite Hin1. intros p Hp. eapply wf_sources_below; eassumption. }
    rewrite (fuse_inputs_spec b g G nd1 Hwf Hag Hb1 Hsrc). rewrite Hin1.
    assert (Hps : map_outcome (fused_port g) (inputs bn) <> Undefined).
    { apply map_outcome_defined. intros p Hp. apply (fused_port_defined g b p Hwf).
      apply (wf_node_inputs g b bn p Hwf Hbn Hp). }
    destruct (map_outcome (fused_port g) (inputs bn)) as [ps | msg |] eqn:Hmap;
      cbn [mbind outcome_bind]; [| discriminate | congruence].
    unfold validate_and_infer_types.
    assert (E2 : get_node (<[b := on_inputs (fun _ => ps) nd1]> G) b
                 = Ok (on_inputs (fun _ => ps) nd1)).
    { apply get_node_Ok, list_lookup_insert_eq. eapply lookup_lt_Some. exact Hb1. }
    rewrite E2. cbn [mbind outcome_bind inputs on_inputs].
    destruct (input_shapes_returns b g (<[b := on_inputs (fun _ => ps) nd1]> G) ps) as [ss Hss].
    { apply agree_below_insert. exact Hag. }
    { intros p' Hp'. apply list_elem_of_lookup in Hp' as [i Hi].
      apply map_outcome_Forall2 in Hmap.
      destruct (Forall2_lookup_r _ _ _ _ _ Hmap Hi) as (p & Hp & Hfp).
      apply (fused_port_wf_input g b p p' Hwf); [| exact Hfp].
      apply (wf_node_inputs g b bn p Hwf Hbn). apply list_elem_of_lookup. eauto. }
    rewrite Hss. cbn [mbind outcome_bind].
    pose proof (Hinfer (on_inputs (fun _ => ps) nd1) ss) as Hi.
    destruct (infer_output_shape _ _); cbn [mbind outcome_bind]; [discriminate | discriminate | congruence]. }
  destruct (is_brgemm root) eqn:Hbr.
  - cbn [mbind outcome_bind]. apply (Hloop m.1 g root root); auto using agree_below_refl.
  - assert (Hnbr : op root <> Brgemm).
    { intros Hx. apply is_brgemm_op in Hx. congruence. }
    assert (Hm2' : m_transpose2 g m = true).
    { destruct m as [n k]. cbn in Hm2. subst k. apply (matched_transpose g n root Hroot Hnbr Hm). }
    pose proof (fuse_output_defined g m Hwf Hm2' Hm2) as Hout.
    destruct (fuse_output g m) as [[b g1] | msg |] eqn:Hfo; cbn [mbind outcome_bind];
      [| discriminate | congruence].
    destruct (fuse_output_inv g m b g1 Hfo)
      as (root' & a & c & bn & cn & data & bo & vd & L & Hr & Ha & Hb & Hbn & Hop
          & Hc & Hcn & Hdata & Hbo & Hvd & HL & Hg1).
    rewrite Hroot in Hr. injection Hr as <-.
    assert (Hlt : (b < m.1)%nat).
    { subst b. apply (wf_source g m.1 root 0 a Hwf Hroot Ha). }
    set (bn' := on_outputs (fun os => <[0%nat := mkOut (tensor_shape bo) (mkPort vd L)]> os) bn) in Hg1.
    assert (Hsrc : forall p, p ∈ inputs bn -> ((source p).1 < b)%nat).
    { intros p Hp. eapply wf_sources_below; eassumption. }
    apply (Hloop b g1 bn' bn); [| exact Hbn | | reflexivity].
    + intros n Hn. rewrite Hg1, list_lookup_fmap. rewrite list_lookup_insert_ne by lia.
      destruct (g !! n) as [nd |] eqn:Hnd; [| reflexivity]. cbn. f_equal.
      apply (redirect_below g m _ n nd Hwf Hnd). lia.
    + rewrite Hg1, list_lookup_fmap.
      rewrite list_lookup_insert_eq by (eapply lookup_lt_Some; exact Hbn). cbn. f_equal.
      apply redirect_id. intros p Hp Heq. apply Hsrc in Hp. rewrite Heq in Hp. lia.
Qed.

(** A scan of a well-formed graph never leaves defined behaviour: it
    ends at a fixed point or in an assertion. *)
Lemma run_defined (fuel : nat) : forall g res,
  wf g = true -> (forall nd ss, infer_output_shape nd ss <> Undefined) ->
  run infer_output_shape fuel g = Some res -> res <> Undefined.
Proof.
  induction fuel as [| fuel IH]; intros g res Hwf Hinfer H; cbn [run] in H.
  - destruct (find_match g); [discriminate |]. injection H as <-. discriminate.
  - destruct (find_match g) as [root |] eqn:Hf; [| injection H as <-; discriminate].
    apply find_some in Hf as [_ Hcand]. apply andb_true_iff in Hcand as [_ Hmatch].
    pose proof (callback_defined g (root, 0%nat) Hwf Hmatch eq_refl Hinfer) as Hdef.
    destruct (callback infer_output_shape g (root, 0%nat)) as [[mutated g'] | msg |] eqn:Hcb;
      [| injection H as <-; discriminate | congruence].
    pose proof (callback_wf infer_output_shape g _ mutated g' Hwf Hcb) as Hwf'.
    destruct (run infer_output_shape fuel g') as [r |] eqn:Hrun; [| discriminate].
    specialize (IH g' r Hwf' Hinfer Hrun).
    destruct r as [[k g''] | msg |]; [injection H as <-; discriminate | | congruence].
    injection H as <-. discriminate.
Qed.

End Progress.

(** C9.  The scan of a well-formed graph ends.  Once a scan has run to
    completion, no node in use matches the pattern any more, and a second
    scan of the graph it left makes no call of the callback: it reports no
    mutation and returns the same graph. *)
Theorem run_idempotent
    (infer_output_shape : Node -> list VectorDims -> outcome VectorDims) (g : Graph) :
  wf g = true ->
  (exists res, run infer_output_shape (S (weight g)) g = Some res)
  /\ forall (fuel k : nat) (g' : Graph),
       run infer_output_shape fuel g = Some (Ok (k, g')) ->
       (forall n : node_id, is_live g' n = true -> m_brgemm_or_transpose g' (n, 0%nat) = false)
       /\ forall fuel' : nat, run infer_output_shape fuel' g' = Some (Ok (0%nat, g')).
Proof.
  intros Hwf. split; [apply run_ends; [exact Hwf | lia] |].
  intros fuel k g' H. apply run_finished in H. split.
  - intros n Hlive. pose proof (proj1 (find_match_None g') H n) as Hc.
    unfold candidate in Hc. rewrite Hlive in Hc. exact Hc.
  - intros fuel'. apply run_no_match. exact H.
Qed.

Example chain_scanned :
  exists g', run Samples.keep_shape 3 Samples.chain = Some (Ok (3%nat, g'))
             /\ input_port g' (6%nat, 0%nat)
                = Some (mkIn (0%nat, 0%nat) (mkPort [4; 8; 32]%N [0; 1; 2]%N))
             /\ out_port <$> output_port g' (6%nat, 0%nat)
                = Some (mkPort [8; 4; 16]%N [1; 0; 2]%N)
             /\ source <$> input_port g' (9%nat, 0%nat) = Some (6%nat, 0%nat).
Proof. eexists. repeat split; vm_compute; reflexivity. Qed.

Lemma run_idempotent_witness :
  exists g',
    run Samples.keep_shape 3 Samples.chain = Some (Ok (3%nat, g'))
    /\ (forall n : node_id, is_live g' n = true -> m_brgemm_or_transpose g' (n, 0%nat) = false)
    /\ forall fuel' : nat, run Samples.keep_shape fuel' g' = Some (Ok (0%nat, g')).
Proof.
  destruct (run_idempotent Samples.keep_shape Samples.chain eq_refl) as [_ H].
  eexists. split; [vm_compute; reflexivity |].
  apply (H 3%nat 3%nat). vm_compute. reflexivity.
Defined.

(** * Further properties of the code *)

(** ** The composer on arbitrary vectors (lines 72-86) *)

Section ComposerMore.

Lemma all_in_range_dec (l : list N) (n : nat) :
  (forall v, v ∈ l -> (v < N.of_nat n)%N)
  \/ exists (i : nat) (v : N), l !! i = Some v /\ (N.of_nat n <= v)%N.
Proof.
  induction l as [| a l' IH]; [left; intros v Hv; inversion Hv |].
  destruct (decide (a < N.of_nat n)%N) as [Ha | Ha].
  - destruct IH as [IH | (i & v & Hi & Hv)].
    + left. intros v Hv. apply elem_of_cons in Hv as [-> | Hv]; auto.
    + right. exists (S i), v. auto.
  - right. exists 0%nat, a. split; [reflexivity | lia].
Qed.

Lemma fuse_layouts_size_mismatch (layout_1 layout_2 : list N) :
  layout_1 <> [] -> layout_2 <> [] -> length layout_1 <> length layout_2 ->
  fuse_layouts layout_1 layout_2 = AssertionFailed msg_equal_ranks.
Proof.
  intros H1 H2 Hlen. unfold fuse_layouts.
  destruct layout_1; [congruence |]. destruct layout_2; [congruence |]. cbn [empty].
  apply Nat.eqb_neq in Hlen. rewrite Hlen. reflexivity.
Qed.

Lemma fuse_layouts_entry_out_of_range (layout_1 layout_2 : list N) (i : nat) (v : N) :
  layout_1 <> [] -> length layout_1 = length layout_2 ->
  layout_2 !! i = Some v -> (N.of_nat (length layout_1) <= v)%N ->
  fuse_layouts layout_1 layout_2 = AssertionFailed msg_exceed_size.
Proof.
  intros H1 Hlen Hv Hge. unfold fuse_layouts.
  destruct layout_1 as [| a l1]; [congruence |].
  destruct layout_2 as [| b l2]; [discriminate |]. cbn [empty].
  rewrite Hlen, Nat.eqb_refl. rewrite <- Hlen.
  apply (fuse_loop_out_of_range _ _ _ _ i v); [| | exact Hv | exact Hge].
  - intros j Hj. apply elem_of_seq in Hj. apply lookup_lt_is_Some_2. lia.
  - apply elem_of_seq. apply lookup_lt_Some in Hv. lia.
Qed.

(** What a returned composition of two non-empty vectors is. *)
Lemma fuse_layouts_Ok_inv (layout_1 layout_2 fused : list N) :
  layout_1 <> [] -> layout_2 <> [] -> fuse_layouts layout_1 layout_2 = Ok fused ->
  length layout_1 = length layout_2
  /\ (forall v, v ∈ layout_2 -> (v < N.of_nat (length layout_1))%N)
  /\ fused = at_index layout_1 <$> layout_2.
Proof.
  intros H1 H2 H.
  destruct (decide (length layout_1 = length layout_2)) as [Hlen | Hlen].
  - destruct (all_in_range_dec layout_2 (length layout_1)) as [Hin | (i & v & Hv & Hge)].
    + rewrite (fuse_layouts_in_range _ _ Hlen Hin) in H. injection H as <-. auto.
    + rewrite (fuse_layouts_entry_out_of_range _ _ i v H1 Hlen Hv Hge) in H. discriminate.
  - rewrite (fuse_layouts_size_mismatch _ _ H1 H2 Hlen) in H. discriminate.
Qed.

End ComposerMore.

(** X1.  On two non-empty vectors the composer has exactly three
    outcomes: the first assertion when the sizes differ, whatever the
    entries are; the second assertion when the sizes agree and an entry of
    [layout_2] is not below the size; the vector of the entries
    [layout_1[layout_2[i]]] otherwise, also when the vectors are not
    permutations.  On no input does it index a vector out of its bounds. *)
Theorem fuse_layouts_outcomes :
  (forall layout_1 layout_2 : list N, layout_1 <> [] -> layout_2 <> [] ->
     length layout_1 <> length layout_2 ->
     fuse_layouts layout_1 layout_2 = AssertionFailed msg_equal_ranks)
  /\ (forall (layout_1 layout_2 : list N) (i : nat) (v : N), layout_1 <> [] ->
        length layout_1 = length layout_2 ->
        layout_2 !! i = Some v -> (N.of_nat (length layout_1) <= v)%N ->
        fuse_layouts layout_1 layout_2 = AssertionFailed msg_exceed_size)
  /\ (forall layout_1 layout_2 : list N,
        length layout_1 = length layout_2 ->
        (forall v, v ∈ layout_2 -> (v < N.of_nat (length layout_1))%N) ->
        fuse_layouts layout_1 layout_2 = Ok (at_index layout_1 <$> layout_2))
  /\ (forall layout_1 layout_2 : list N, fuse_layouts layout_1 layout_2 <> Undefined).
Proof.
  split; [exact fuse_layouts_size_mismatch |].
  split; [exact fuse_layouts_entry_out_of_range |].
  split; [exact fuse_layouts_in_range | exact fuse_layouts_defined].
Qed.

Lemma fuse_layouts_outcomes_witness :
  fuse_layouts [0; 9]%N [5; 0; 1]%N = AssertionFailed msg_equal_ranks
  /\ fuse_layouts [0; 1; 2]%N [0; 7; 1]%N = AssertionFailed msg_exceed_size
  /\ fuse_layouts [4; 4; 9]%N [2; 2; 0]%N = Ok (at_index [4; 4; 9]%N <$> [2; 2; 0]%N).
Proof.
  split; [| split].
  - apply (proj1 fuse_layouts_outcomes); [discriminate | discriminate | simpl; lia].
  - apply (proj1 (proj2 fuse_layouts_outcomes) _ _ 1%nat 7%N);
      [discriminate | reflexivity | reflexivity | simpl; lia].
  - apply (proj1 (proj2 (proj2 fuse_layouts_outcomes))); [reflexivity |].
    intros v Hv. apply list_elem_of_In in Hv. simpl in Hv. simpl. lia.
Defined.

Section ComposerAlgebra.

Lemma bind_ret_r {A} (m : outcome A) : (m ≫= fun x => Ok x) = m.
Proof. destruct m; reflexivity. Qed.

Lemma at_index_fmap (layout_1 layout_2 : list N) (v : N) :
  (v < N.of_nat (length layout_2))%N ->
  at_index (at_index layout_1 <$> layout_2) v = at_index layout_1 (at_index layout_2 v).
Proof.
  intros Hv. apply at_index_lookup. rewrite list_lookup_fmap.
  rewrite (lookup_at_index _ _ Hv). reflexivity.
Qed.

Lemma at_index_elem_of (l : list N) (v : N) :
  (v < N.of_nat (length l))%N -> at_index l v ∈ l.
Proof.
  intros Hv. apply list_elem_of_lookup. exists (N.to_nat v). apply lookup_at_index. exact Hv.
Qed.

Lemma fuse_nonempty_assoc (a b c : list N) (n : nat) :
  a <> [] -> b <> [] -> c <> [] ->
  is_permutation a -> length a = n -> is_permutation b -> length b = n ->
  is_permutation c -> length c = n ->
  (ab ← fuse_layouts a b; fuse_layouts ab c) = (bc ← fuse_layouts b c; fuse_layouts a bc).
Proof.
  intros Ha Hb Hc Hpa Hla Hpb Hlb Hpc Hlc.
  rewrite (fuse_layouts_permutations a b), (fuse_layouts_permutations b c)
    by (assumption || congruence).
  cbn [mbind outcome_bind].
  rewrite (fuse_layouts_in_range (at_index a <$> b) c).
  - rewrite (fuse_layouts_in_range a (at_index b <$> c)).
    + f_equal. rewrite <- list_fmap_compose. apply list_fmap_ext. intros i v Hv. cbn.
      apply at_index_fmap. rewrite Hlb, <- Hlc. apply is_permutation_bound; [exact Hpc |].
      apply list_elem_of_lookup. eauto.
    + rewrite length_fmap. congruence.
    + intros w Hw. apply list_elem_of_fmap in Hw as (v & -> & Hv).
      rewrite Hla, <- Hlb. apply is_permutation_bound; [exact Hpb |].
      apply at_index_elem_of. rewrite Hlb, <- Hlc. apply is_permutation_bound; assumption.
  - rewrite length_fmap. congruence.
  - intros v Hv. rewrite length_fmap, Hlb, <- Hlc. apply is_permutation_bound; assumption.
Qed.

End ComposerAlgebra.

(** X2.  Composition is associative on the layouts the pass handles:
    for three layouts that are each empty or a valid permutation of one
    rank, composing the first two and then the third gives what composing
    the first with the composition of the last two gives.  Two transposes
    fused one after the other leave the layout that their composed order
    would leave. *)
Theorem fuse_layouts_assoc (a b c : list N) (n : nat) :
  (a = [] \/ (is_permutation a /\ length a = n)) ->
  (b = [] \/ (is_permutation b /\ length b = n)) ->
  (c = [] \/ (is_permutation c /\ length c = n)) ->
  (ab ← fuse_layouts a b; fuse_layouts ab c) = (bc ← fuse_layouts b c; fuse_layouts a bc).
Proof.
  intros Ha Hb Hc.
  destruct a as [| a0 a'].
  { cbn. symmetry. apply bind_ret_r. }
  destruct Ha as [Ha | [Hpa Hla]]; [discriminate |].
  destruct b as [| b0 b'].
  { cbn. reflexivity. }
  destruct Hb as [Hb | [Hpb Hlb]]; [discriminate |].
  destruct c as [| c0 c'].
  { assert (E : fuse_layouts (b0 :: b') [] = Ok (b0 :: b')) by reflexivity.
    rewrite E. cbn [mbind outcome_bind].
    rewrite (fuse_layouts_permutations (a0 :: a') (b0 :: b')) by (assumption || congruence).
    reflexivity. }
  destruct Hc as [Hc | [Hpc Hlc]]; [discriminate |].
  apply (fuse_nonempty_assoc _ _ _ n); (discriminate || assumption).
Qed.

Lemma fuse_layouts_assoc_witness :
  (ab ← fuse_layouts [1; 0; 2]%N [0; 2; 1]%N; fuse_layouts ab [2; 0; 1]%N)
  = (bc ← fuse_layouts [0; 2; 1]%N [2; 0; 1]%N; fuse_layouts [1; 0; 2]%N bc).
Proof.
  apply (fuse_layouts_assoc _ _ _ 3); right;
    (split; [apply (bool_decide_unpack _); reflexivity | reflexivity]).
Defined.

(** X3.  The identity permutation [0, 1, ..., n-1] is neutral for the
    composer: read through the identity, any vector of [n] entries comes
    back as it is, and the identity read through a vector of [n] entries
    below [n] gives that vector. *)
Theorem fuse_layouts_iota (P : list N) :
  fuse_layouts P (N.of_nat <$> seq 0 (length P)) = Ok P
  /\ ((forall v, v ∈ P -> (v < N.of_nat (length P))%N) ->
      fuse_layouts (N.of_nat <$> seq 0 (length P)) P = Ok P).
Proof.
  split.
  - rewrite fuse_layouts_in_range.
    + rewrite fmap_at_index_iota. reflexivity.
    + rewrite length_fmap, length_seq. reflexivity.
    + intros v Hv. apply list_elem_of_fmap in Hv as (k & -> & Hk).
      apply elem_of_seq in Hk. lia.
  - intros Hin. rewrite fuse_layouts_in_range.
    + f_equal. transitivity (id <$> P); [| apply list_fmap_id].
      apply list_fmap_ext. intros i v Hv. cbn.
      apply at_index_lookup. rewrite list_lookup_fmap.
      assert (Hlt : (v < N.of_nat (length P))%N).
      { apply Hin. apply list_elem_of_lookup. eauto. }
      rewrite lookup_seq_lt by lia. cbn. rewrite N2Nat.id. reflexivity.
    + rewrite length_fmap, length_seq. reflexivity.
    + rewrite length_fmap, length_seq. exact Hin.
Qed.

Lemma fuse_layouts_iota_witness :
  fuse_layouts [2; 0; 1]%N (N.of_nat <$> seq 0 3) = Ok [2; 0; 1]%N
  /\ fuse_layouts (N.of_nat <$> seq 0 3) [2; 0; 1]%N = Ok [2; 0; 1]%N.
Proof.
  split.
  - apply (proj1 (fuse_layouts_iota [2; 0; 1]%N)).
  - apply (proj2 (fuse_layouts_iota [2; 0; 1]%N)).
    intros v Hv. apply list_elem_of_In in Hv. simpl in Hv. simpl. lia.
Defined.

(** X4.  The composer keeps the last dimension in place: when each of
    the two vectors is empty or ends with its last index, a composition
    that returns a non-empty vector ends with its last index as well. *)
Theorem fuse_layouts_keeps_last (layout_1 layout_2 fused : list N) :
  (layout_1 = [] \/ list.last layout_1 = Some (N.of_nat (length layout_1) - 1)%N) ->
  (layout_2 = [] \/ list.last layout_2 = Some (N.of_nat (length layout_2) - 1)%N) ->
  fuse_layouts layout_1 layout_2 = Ok fused -> fused <> [] ->
  list.last fused = Some (N.of_nat (length fused) - 1)%N.
Proof.
  intros H1 H2 H Hne.
  destruct layout_1 as [| a l1].
  { cbn in H. injection H as <-. destruct H2 as [-> | H2]; [congruence | exact H2]. }
  destruct H1 as [H1 | H1]; [discriminate |].
  destruct layout_2 as [| b l2].
  { cbn in H. injection H as <-. exact H1. }
  destruct H2 as [H2 | H2]; [discriminate |].
  assert (Hn1 : a :: l1 <> []) by discriminate.
  assert (Hn2 : b :: l2 <> []) by discriminate.
  destruct (fuse_layouts_Ok_inv _ _ _ Hn1 Hn2 H) as (Hlen & Hin & ->).
  rewrite last_lookup in H1, H2 |- *. rewrite length_fmap, list_lookup_fmap, H2.
  cbn [fmap option_fmap option_map]. f_equal. rewrite <- Hlen.
  apply at_index_lookup.
  replace (N.to_nat (N.of_nat (length (a :: l1)) - 1)) with (pred (length (a :: l1)))
    by (cbn [length]; lia).
  exact H1.
Qed.

Lemma fuse_layouts_keeps_last_witness :
  list.last (at_index [1; 0; 2]%N <$> [0; 1; 2]%N) = Some (N.of_nat 3 - 1)%N.
Proof.
  apply (fuse_layouts_keeps_last [1; 0; 2]%N [0; 1; 2]%N).
  - right. reflexivity.
  - right. reflexivity.
  - reflexivity.
  - discriminate.
Defined.

(** ** Eligible orders (lines 42-45) *)

(** X5.  An eligible permutation moves the leading dimensions only: it is
    a permutation of [0, rank - 1) followed by [rank - 1]. *)
Theorem eligible_order_permutes_prefix (p : list Z) :
  is_permutation_order p -> is_supported_transpose_order p = true ->
  exists q : list Z,
    p = q ++ [Z.of_nat (length q)] /\ q ≡ₚ (Z.of_nat <$> seq 0 (length q)).
Proof.
  intros Hp Hs. pose proof (permutation_order_size p Hp) as Hsize.
  assert (Hne : 0 < size p).
  { unfold size. destruct p; [discriminate Hs | simpl; lia]. }
  apply order_supported_iff in Hs; [| lia].
  apply last_Some in Hs as [q Hq]. exists q.
  assert (Hlen : size p - 1 = Z.of_nat (length q)).
  { unfold size. rewrite Hq at 1. rewrite length_app. simpl. lia. }
  rewrite Hlen in Hq. split; [exact Hq |].
  destruct Hp as [Hperm _]. rewrite Hq in Hperm. rewrite length_app in Hperm.
  cbn [length] in Hperm. rewrite Nat.add_1_r, seq_S, fmap_app in Hperm. cbn in Hperm.
  apply (inj (fun l => l ++ [Z.of_nat (length q)])). exact Hperm.
Qed.

Lemma eligible_order_permutes_prefix_witness :
  exists q : list Z,
    [2; 0; 1; 3] = q ++ [Z.of_nat (length q)] /\ q ≡ₚ (Z.of_nat <$> seq 0 (length q)).
Proof.
  apply (eligible_order_permutes_prefix [2; 0; 1; 3]).
  - split; [apply (bool_decide_unpack _); reflexivity |].
    repeat constructor; unfold is_int32; lia.
  - reflexivity.
Defined.

(** ** The callback on any graph (lines 68-125) *)

(** X6.  On a root that the pattern matched, in a well-formed graph, the
    callback never dereferences a null pointer and never indexes out of
    range: it returns or stops in an assertion, provided the shape
    inference does. *)
Theorem callback_never_undefined
    (infer_output_shape : Node -> list VectorDims -> outcome VectorDims)
    (g : Graph) (root : node_id) :
  wf g = true -> m_brgemm_or_transpose g (root, 0%nat) = true ->
  (forall nd ss, infer_output_shape nd ss <> Undefined) ->
  callback infer_output_shape g (root, 0%nat) <> Undefined.
Proof.
  intros Hwf Hm Hinfer. apply callback_defined; [exact Hwf | exact Hm | reflexivity | exact Hinfer].
Qed.

Lemma callback_never_undefined_witness :
  callback MoreSamples.first_shape Samples.chain (8%nat, 0%nat) <> Undefined.
Proof.
  apply (callback_never_undefined MoreSamples.first_shape Samples.chain 8%nat).
  - reflexivity.
  - vm_compute. reflexivity.
  - intros nd ss. discriminate.
Defined.

(** X7.  The callback keeps the graph well formed: after a call that
    returned, every input still consumes an output of an earlier node, a
    Transpose still has two inputs and one output, a Brgemm one output. *)
Theorem callback_keeps_wf
    (infer_output_shape : Node -> list VectorDims -> outcome VectorDims)
    (g : Graph) (m : Output) (r : bool) (g' : Graph) :
  wf g = true -> callback infer_output_shape g m = Ok (r, g') -> wf g' = true.
Proof. apply callback_wf. Qed.

Lemma callback_keeps_wf_witness :
  wf (Samples.graph_after (callback Samples.keep_shape Samples.chain (8%nat, 0%nat))) = true.
Proof.
  apply (callback_keeps_wf Samples.keep_shape Samples.chain (8%nat, 0%nat) true).
  - reflexivity.
  - reflexivity.
Defined.

Section Frame.

Variable infer_output_shape : Node -> list VectorDims -> outcome VectorDims.

(** The nodes a call leaves, with the Brgemm it worked on. *)
Lemma callback_nodes_matched (g : Graph) (m : Output) (r : bool) (g' : Graph) :
  wf g = true -> callback infer_output_shape g m = Ok (r, g') ->
  exists b bn ps outs' root (redir : bool),
    matched_brgemm g m = Some b
    /\ g !! b = Some bn /\ op bn = Brgemm /\ g !! m.1 = Some root
    /\ map_outcome (fused_port g) (inputs bn) = Ok ps
    /\ length outs' = length (outputs bn)
    /\ g' !! b = Some (mkNode Brgemm ps outs')
    /\ (forall k : node_id, k <> b ->
          g' !! k = (if redir then redirect m (b, 0%nat) else fun nd => nd) <$> g !! k)
    /\ (if redir then op root <> Brgemm /\ (b < m.1)%nat /\ exists a, inputs root !! 0%nat = Some a
        else b = m.1).
Proof.
  intros Hwf H.
  destruct (callback_inv infer_output_shape g m r g' Hwf H)
    as (b & bn & g1 & nd1 & ps & s & root & Hm & Hbn & Hop & Hroot & Hcase & Hb1 & Hin1 & Hps & -> & ->).
  destruct Hcase as [(Hbr & -> & ->) | (Hnbr & Hlt & Hout)].
  - exists m.1, bn, ps, (alter (with_tensor_shape s) 0%nat (outputs bn)), root, false.
    rewrite Hbn in Hb1. injection Hb1 as <-.
    split; [exact Hm |].
    repeat (split; [assumption || reflexivity || apply length_alter |]).
    split; [rewrite (final_lookup_brgemm _ _ _ _ _ Hbn), Hop; reflexivity |].
    split; [| reflexivity].
    intros k Hk. rewrite final_lookup_other by exact Hk. destruct (g !! k); reflexivity.
  - destruct (fuse_output_inv g m b g1 Hout)
      as (root' & a & c & bn' & cn & data & bo & vd & L & Hr & Ha & Hb & Hbn' & _
          & Hc & Hcn & Hdata & Hbo & Hvd & HL & Hg1).
    rewrite Hroot in Hr. injection Hr as <-. rewrite Hbn in Hbn'. injection Hbn' as <-.
    assert (Hnd1 : op nd1 = Brgemm /\ length (outputs nd1) = length (outputs bn)).
    { rewrite Hg1, list_lookup_fmap in Hb1.
      rewrite list_lookup_insert_eq in Hb1 by (eapply lookup_lt_Some; exact Hbn).
      cbn in Hb1. injection Hb1 as <-. cbn. split; [exact Hop | apply length_insert]. }
    destruct Hnd1 as [Hop1 Hlen1].
    exists b, bn, ps, (alter (with_tensor_shape s) 0%nat (outputs nd1)), root, true.
    split; [exact Hm |].
    repeat (split; [assumption || reflexivity |]).
    split; [rewrite length_alter; exact Hlen1 |].
    split; [rewrite (final_lookup_brgemm _ _ _ _ _ Hb1), Hop1; reflexivity |].
    split; [| split; [exact Hnbr | split; [exact Hlt | exists a; exact Ha]]].
    intros k Hk. rewrite final_lookup_other by exact Hk.
    rewrite Hg1, list_lookup_fmap. rewrite list_lookup_insert_ne by congruence. reflexivity.
Qed.

Lemma redirect_frame (m new : Output) (nd : Node) :
  op (redirect m new nd) = op nd
  /\ outputs (redirect m new nd) = outputs nd
  /\ in_port <$> inputs (redirect m new nd) = in_port <$> inputs nd
  /\ forall (i : nat) (p' : InputPort), inputs (redirect m new nd) !! i = Some p' ->
       exists p, inputs nd !! i = Some p
                 /\ (source p' = source p \/ (source p = m /\ source p' = new)).
Proof.
  unfold redirect. cbn. repeat split.
  - rewrite <- list_fmap_compose. apply list_fmap_ext. intros i p _. cbn.
    destruct (decide (source p = m)); reflexivity.
  - intros i p' Hp'. rewrite list_lookup_fmap in Hp'.
    destruct (inputs nd !! i) as [p |]; [| discriminate]. cbn in Hp'. injection Hp' as <-.
    exists p. split; [reflexivity |].
    destruct (decide (source p = m)); [right; auto | left; reflexivity].
Qed.

End Frame.

(** X8.  What the callback leaves alone.  After a call that returned the
    graph has the same nodes with the same operators, so no constant is
    changed, and every node has as many inputs as before.  A node other
    than the Brgemm keeps its outputs and the descriptors of its inputs;
    its inputs consume what they consumed, except the ones that consumed
    the matched value, which may consume the first output of the
    Brgemm. *)
Theorem callback_frame
    (infer_output_shape : Node -> list VectorDims -> outcome VectorDims)
    (g : Graph) (m : Output) (r : bool) (g' : Graph) :
  wf g = true -> callback infer_output_shape g m = Ok (r, g') ->
  exists brgemm,
    matched_brgemm g m = Some brgemm
    /\ length g' = length g
    /\ forall (n : node_id) (nd' : Node), g' !! n = Some nd' ->
         exists nd,
           g !! n = Some nd /\ op nd' = op nd
           /\ length (inputs nd') = length (inputs nd)
           /\ length (outputs nd') = length (outputs nd)
           /\ (n <> brgemm ->
               outputs nd' = outputs nd
               /\ in_port <$> inputs nd' = in_port <$> inputs nd
               /\ forall (i : nat) (p' : InputPort), inputs nd' !! i = Some p' ->
                    exists p, inputs nd !! i = Some p
                      /\ (source p' = source p
                          \/ (source p = m /\ source p' = (brgemm, 0%nat)))).
Proof.
  intros Hwf H.
  destruct (callback_nodes_matched infer_output_shape g m r g' Hwf H)
    as (b & bn & ps & outs' & root & redir & Hmb & Hbn & Hop & Hroot & Hps & Hlen & Hb' & Hother & Hredir).
  exists b. split; [exact Hmb |].
  assert (Hnodes : forall (n : node_id) (nd' : Node), g' !! n = Some nd' ->
            exists nd, g !! n = Some nd /\ op nd' = op nd
              /\ length (inputs nd') = length (inputs nd)
              /\ length (outputs nd') = length (outputs nd)
              /\ (n <> b ->
                  outputs nd' = outputs nd
                  /\ in_port <$> inputs nd' = in_port <$> inputs nd
                  /\ forall (i : nat) (p' : InputPort), inputs nd' !! i = Some p' ->
                       exists p, inputs nd !! i = Some p
                         /\ (source p' = source p \/ (source p = m /\ source p' = (b, 0%nat))))).
  { intros n nd' Hn. destruct (decide (n = b)) as [-> | Hnb].
    - rewrite Hb' in Hn. injection Hn as <-. exists bn. cbn.
      split; [exact Hbn |]. split; [symmetry; exact Hop |].
      split; [apply (map_outcome_length _ _ _ Hps) |]. split; [exact Hlen |]. congruence.
    - rewrite (Hother n Hnb) in Hn. destruct (g !! n) as [nd |]; [| discriminate].
      injection Hn as <-. exists nd. split; [reflexivity |].
      destruct redir.
      + destruct (redirect_frame m (b, 0%nat) nd) as (H1 & H2 & H3 & H4).
        split; [exact H1 |]. split; [unfold redirect; cbn; apply length_fmap |].
        split; [rewrite H2; reflexivity |]. intros _. auto.
      + repeat split. intros i p' Hp'. exists p'. auto. }
  split; [| exact Hnodes].
  destruct (Nat.lt_trichotomy (length g') (length g)) as [Hlt | [Heq | Hgt]]; [| exact Heq |].
  - exfalso. destruct (lookup_lt_is_Some_2 g (length g') Hlt) as [nd Hnd].
    destruct (decide (length g' = b)) as [Hb | Hb].
    + rewrite <- Hb in Hb'. apply lookup_lt_Some in Hb'. lia.
    + pose proof (Hother _ Hb) as Ho. rewrite Hnd in Ho.
      assert (Hs : is_Some (g' !! length g')) by (rewrite Ho; destruct redir; eexists; reflexivity).
      apply lookup_lt_is_Some_1 in Hs. lia.
  - exfalso. destruct (lookup_lt_is_Some_2 g' (length g) Hgt) as [nd' Hnd'].
    destruct (Hnodes _ _ Hnd') as (nd & Hnd & _). apply lookup_lt_Some in Hnd. lia.
Qed.

Lemma callback_frame_witness :
  let g := Samples.output_transposed in
  let g' := Samples.graph_after (callback Samples.keep_shape g (4%nat, 0%nat)) in
  length g' = length g /\ op <$> g' !! 3%nat = Some (Constant [1; 0; 2]).
Proof.
  intros g g'.
  destruct (callback_frame Samples.keep_shape g (4%nat, 0%nat) true g' eq_refl eq_refl)
    as (b & _ & Hlen & Hnodes).
  split; [exact Hlen |].
  destruct (g' !! 3%nat) as [nd' |] eqn:Hnd'; [| vm_compute in Hnd'; discriminate Hnd'].
  destruct (Hnodes 3%nat nd' Hnd') as (nd & Hnd & Hop & _).
  vm_compute in Hnd. injection Hnd as <-. cbn. f_equal. exact Hop.
Defined.

(** ** The pattern (lines 49-66) *)

Section PatternFacts.

Implicit Types (g : Graph) (v : Output).

(** In a well-formed graph [m_transpose] matches where the predicate
    holds: the structure it asks for is what the predicate checks. *)
Lemma m_transpose_iff g v :
  wf g = true -> m_transpose g v = true <-> is_supported_transpose g v = Ok true.
Proof.
  intros Hwf. split; [apply m_transpose_supported |].
  intros Hs. destruct (is_supported_transpose_true g v Hs) as (tr & Htr & Hop).
  destruct (wf_transpose g _ tr Hwf Htr Hop) as (x & c & o & Hin & _).
  destruct (wf_source g _ tr 1 c Hwf Htr) as (_ & cn & Hcn & _); [rewrite Hin; reflexivity |].
  unfold m_transpose. rewrite Htr, Hop, Hin, Hcn, Hs. cbn. rewrite andb_true_r.
  assert (Hn : get_node g v.1 = Ok tr) by (apply get_node_Ok; exact Htr).
  assert (Hord : get_input_node g tr 1 = Ok cn).
  { apply get_input_node_Ok. exists c. rewrite Hin. auto. }
  unfold is_supported_transpose in Hs. rewrite Hn in Hs. cbn [mbind outcome_bind] in Hs.
  apply is_transpose_op in Hop. rewrite Hop in Hs. cbn [negb] in Hs.
  rewrite Hord in Hs. cbn [mbind outcome_bind] in Hs. unfold is_constant.
  destruct (as_constant cn); [reflexivity | discriminate Hs].
Qed.

End PatternFacts.

(** X9.  What the pattern of the pass matches.  In a well-formed graph
    it matches a value exactly when its node is a Brgemm with two inputs
    one of which passes [is_supported_transpose], or a Transpose that
    passes [is_supported_transpose] and whose first input is produced by a
    Brgemm with two inputs.  The sub-pattern "a Transpose over any input
    and a Constant" adds nothing to the predicate. *)
Theorem pattern_matches_iff (g : Graph) (v : Output) :
  wf g = true ->
  m_brgemm_or_transpose g v = true <->
  exists nd, g !! v.1 = Some nd
    /\ ((op nd = Brgemm
         /\ exists a b, inputs nd = [a; b]
              /\ (is_supported_transpose g (source a) = Ok true
                  \/ is_supported_transpose g (source b) = Ok true))
        \/ (op nd = Transpose /\ is_supported_transpose g v = Ok true
            /\ exists a c bn x y, inputs nd = [a; c]
                 /\ g !! (source a).1 = Some bn /\ op bn = Brgemm /\ inputs bn = [x; y])).
Proof.
  intros Hwf. unfold m_brgemm_or_transpose, m_brgemm_in0, m_brgemm_in1. split.
  - intros H. destruct (g !! v.1) as [nd |] eqn:Hnd.
    + exists nd. split; [reflexivity |].
      destruct (op nd) eqn:Hop;
        try (cbn in H; unfold m_transpose2 in H; rewrite Hnd, Hop in H; discriminate H).
      * right. cbn in H.
        destruct (m_transpose2_inv g v H)
          as (root & a & c & bn & cn & data & Hroot & _ & Hin & Hbn & Hopb & _ & _ & Hs & _).
        rewrite Hnd in Hroot. injection Hroot as <-.
        split; [reflexivity |]. split; [exact Hs |].
        unfold m_transpose2, m_brgemm_out in H. rewrite Hnd, Hop, Hin, Hbn, Hopb in H.
        destruct (inputs bn) as [| x [| y [| ? ?]]] eqn:Hib; try discriminate H.
        exists a, c, bn, x, y. auto.
      * left. split; [reflexivity |].
        assert (Ht2 : m_transpose2 g v = false).
        { unfold m_transpose2. rewrite Hnd, Hop. reflexivity. }
        rewrite Ht2, orb_false_r in H.
        destruct (inputs nd) as [| a [| b [| ? ?]]]; try discriminate H.
        exists a, b. split; [reflexivity |].
        apply orb_true_iff in H as [H | H]; apply m_transpose_supported in H; auto.
    + unfold m_transpose2 in H. rewrite Hnd in H. discriminate H.
  - intros (nd & Hnd & [(Hop & a & b & Hin & Hs) | (Hop & Hs & a & c & bn & x & y & Hin & Hbn & Hopb & Hib)]).
    + rewrite Hnd, Hop, Hin.
      destruct Hs as [Hs | Hs]; apply (m_transpose_iff g _ Hwf) in Hs; rewrite Hs;
        [reflexivity | rewrite orb_true_r; reflexivity].
    + rewrite Hnd, Hop. cbn. unfold m_transpose2, m_brgemm_out.
      rewrite Hnd, Hop, Hin, Hbn, Hopb, Hib.
      apply (m_transpose_iff g v Hwf) in Hs. unfold m_transpose in Hs.
      rewrite Hnd, Hop, Hin in Hs. exact Hs.
Qed.

Lemma pattern_matches_iff_witness :
  let g := Samples.chain in
  m_brgemm_or_transpose g (8%nat, 0%nat) = true <->
  exists nd, g !! 8%nat = Some nd
    /\ ((op nd = Brgemm
         /\ exists a b, inputs nd = [a; b]
              /\ (is_supported_transpose g (source a) = Ok true
                  \/ is_supported_transpose g (source b) = Ok true))
        \/ (op nd = Transpose /\ is_supported_transpose g (8%nat, 0%nat) = Ok true
            /\ exists a c bn x y, inputs nd = [a; c]
                 /\ g !! (source a).1 = Some bn /\ op bn = Brgemm /\ inputs bn = [x; y])).
Proof.
  intros g. apply (pattern_matches_iff g (8%nat, 0%nat)). reflexivity.
Defined.

(** ** When there is nothing to fuse, and when the ranks do not fit *)

Section CallbackEdges.

Variable infer_output_shape : Node -> list VectorDims -> outcome VectorDims.

Implicit Types (g : Graph) (nd : Node) (p : InputPort) (m v : Output).

Lemma map_outcome_same {A} (f : A -> outcome A) (l : list A) :
  (forall a, a ∈ l -> f a = Ok a) -> map_outcome f l = Ok l.
Proof.
  induction l as [| a l' IH]; intros H; [reflexivity |].
  cbn [map_outcome]. rewrite (H a) by left. cbn [mbind outcome_bind].
  rewrite IH by (intros; apply H; right; assumption). reflexivity.
Qed.

Lemma order_nonempty (data : list Z) :
  is_supported_transpose_order (cast_vector_int32 data) = true -> cast_vector_size_t data <> [].
Proof. destruct data; [discriminate | discriminate]. Qed.

(** On a port whose source is an eligible transpose, [fused_port] comes
    down to the composition of the order with the layout of the port. *)
Lemma fused_port_eval g p :
  wf g = true -> is_supported_transpose g (source p) = Ok true ->
  exists x data vdims,
    transpose_order g (source p).1 = Some data
    /\ is_supported_transpose_order (cast_vector_int32 data) = true
    /\ fused_port g p =
       (fused ← fuse_layouts (cast_vector_size_t data) (get_layout (in_port p));
        Ok (mkIn x (mkPort vdims fused))).
Proof.
  intros Hwf Hok.
  destruct (is_supported_transpose_true g _ Hok) as (tr & Htr & Hop).
  destruct (wf_transpose _ _ _ Hwf Htr Hop) as (x & c & o & Hin & _).
  destruct (wf_source g _ tr 1 c Hwf Htr) as (_ & cn & Hcn & _); [rewrite Hin; reflexivity |].
  assert (Hn : get_node g (source p).1 = Ok tr) by (apply get_node_Ok; exact Htr).
  assert (Hord : get_input_node g tr 1 = Ok cn).
  { apply get_input_node_Ok. exists c. rewrite Hin. auto. }
  assert (Hx : input_value tr 0 = Ok (source x)).
  { apply input_value_Ok. exists x. rewrite Hin. auto. }
  destruct (wf_get_vdims g (source p).1 x) as [s Hs].
  { apply (wf_node_inputs g _ tr x Hwf Htr). rewrite Hin. left. }
  pose proof Hok as Hok'. unfold is_supported_transpose in Hok'.
  rewrite Hn in Hok'. cbn [mbind outcome_bind] in Hok'.
  apply is_transpose_op in Hop. rewrite Hop in Hok'. cbn [negb] in Hok'.
  rewrite Hord in Hok'. cbn [mbind outcome_bind] in Hok'.
  destruct (as_constant cn) as [data |] eqn:Hdata; [| discriminate Hok'].
  injection Hok' as Helig.
  exists (source x), data, s. split; [| split; [exact Helig |]].
  - unfold transpose_order. rewrite Htr. cbn. rewrite Hop, Hin. cbn. rewrite Hcn. exact Hdata.
  - unfold fused_port. rewrite Hok. cbn [mbind outcome_bind].
    rewrite Hn. cbn [mbind outcome_bind]. rewrite Hord. cbn [fmap outcome_fmap mbind outcome_bind].
    rewrite Hx. cbn [mbind outcome_bind]. rewrite Hdata.
    cbn [deref fmap outcome_fmap mbind outcome_bind]. rewrite Hs. reflexivity.
Qed.

End CallbackEdges.

Section Revalidation.

Variable infer_output_shape : Node -> list VectorDims -> outcome VectorDims.

Lemma callback_revalidates_only (g : Graph) (m : Output) (root : Node) :
  wf g = true -> g !! m.1 = Some root -> op root = Brgemm ->
  (forall p, p ∈ inputs root -> is_supported_transpose g (source p) = Ok false) ->
  callback infer_output_shape g m
  = (g' ← validate_and_infer_types infer_output_shape m.1 g; Ok (true, g')).
Proof.
  intros Hwf Hroot Hop Hnone. unfold callback.
  assert (E1 : get_node g m.1 = Ok root) by (apply get_node_Ok; exact Hroot).
  apply is_brgemm_op in Hop. rewrite E1. cbn [mbind outcome_bind]. rewrite Hop.
  cbn [mbind outcome_bind].
  rewrite (fuse_inputs_spec m.1 g g root Hwf (agree_below_refl _ _) Hroot)
    by (intros p Hp; eapply wf_sources_below; eassumption).
  rewrite map_outcome_same.
  - cbn [mbind outcome_bind].
    assert (Hsame : <[m.1 := on_inputs (fun _ => inputs root) root]> g = g).
    { apply list_insert_id. rewrite Hroot. f_equal. destruct root; reflexivity. }
    rewrite Hsame. reflexivity.
  - intros p Hp. unfold fused_port. rewrite (Hnone p Hp). reflexivity.
Qed.

End Revalidation.

(** X10.  On a Brgemm none of whose inputs is produced by an eligible
    transpose, the callback does what the revalidation alone does: no
    input is rewired and no descriptor is written. *)
Theorem callback_without_transpose
    (infer_output_shape : Node -> list VectorDims -> outcome VectorDims)
    (g : Graph) (m : Output) (root : Node) :
  wf g = true -> g !! m.1 = Some root -> op root = Brgemm ->
  (forall p, p ∈ inputs root -> is_supported_transpose g (source p) = Ok false) ->
  callback infer_output_shape g m
  = (g' ← validate_and_infer_types infer_output_shape m.1 g; Ok (true, g')).
Proof. apply callback_revalidates_only. Qed.

Lemma callback_without_transpose_witness :
  callback MoreSamples.first_shape MoreSamples.plain_brgemm (2%nat, 0%nat)
  = (g' ← validate_and_infer_types MoreSamples.first_shape 2%nat MoreSamples.plain_brgemm;
     Ok (true, g')).
Proof.
  apply (callback_without_transpose MoreSamples.first_shape MoreSamples.plain_brgemm
           (2%nat, 0%nat)
           (mkNode Brgemm [Samples.consumes 0 [8; 4; 32]%N; Samples.consumes 1 [8; 32; 16]%N]
                   (Samples.produces [8; 4; 16]%N))).
  - reflexivity.
  - reflexivity.
  - reflexivity.
  - intros p Hp. apply list_elem_of_In in Hp. simpl in Hp.
    destruct Hp as [<- | [<- | []]]; reflexivity.
Defined.

(** X11.  The loop of lines 100-102 moves every consumer: afterwards no
    input of the graph consumes the old value (when the new one is another
    value), an input that consumed it consumes the new value with its
    descriptor untouched, and every other input is as it was. *)
Theorem replace_consumers_moves_all (g : Graph) (old new : Output) :
  (old <> new -> get_target_inputs (replace_consumers g old new) old = [])
  /\ forall (i : Input) (p : InputPort), input_port g i = Some p ->
       input_port (replace_consumers g old new) i
       = Some (if decide (source p = old) then mkIn new (in_port p) else p).
Proof.
  split.
  - intros Hne. destruct (get_target_inputs _ old) as [| t ts] eqn:Ht; [reflexivity |].
    exfalso. assert (Hin : t ∈ get_target_inputs (replace_consumers g old new) old)
      by (rewrite Ht; left).
    apply elem_of_get_target_inputs in Hin as (nd' & p' & Hnd' & Hp' & Hs).
    rewrite replace_consumers_spec, list_lookup_fmap in Hnd'.
    destruct (g !! t.1) as [nd |]; [| discriminate]. cbn in Hnd'. injection Hnd' as <-.
    unfold redirect in Hp'. cbn in Hp'. rewrite list_lookup_fmap in Hp'.
    destruct (inputs nd !! t.2) as [p |]; [| discriminate]. cbn in Hp'. injection Hp' as <-.
    destruct (decide (source p = old)); cbn in Hs; congruence.
  - intros i p Hp. unfold input_port in *. rewrite replace_consumers_spec, list_lookup_fmap.
    destruct (g !! i.1) as [nd |]; [| discriminate]. cbn in *.
    rewrite list_lookup_fmap, Hp. cbn. destruct (decide (source p = old)); reflexivity.
Qed.

Lemma replace_consumers_moves_all_witness :
  get_target_inputs
    (replace_consumers Samples.output_transposed (4%nat, 0%nat) (2%nat, 0%nat)) (4%nat, 0%nat)
  = [].
Proof.
  apply (proj1 (replace_consumers_moves_all Samples.output_transposed (4%nat, 0%nat) (2%nat, 0%nat))).
  discriminate.
Defined.

Section RankMismatch.

Variable infer_output_shape : Node -> list VectorDims -> outcome VectorDims.

Implicit Types (g : Graph) (nd : Node) (p : InputPort) (m v : Output).

Lemma map_outcome_stops {A B} (f : A -> outcome B) (pre post : list A) (a : A) (msg : string) :
  (forall q, q ∈ pre -> returns (f q)) -> f a = AssertionFailed msg ->
  map_outcome f (pre ++ a :: post) = AssertionFailed msg.
Proof.
  intros Hpre Ha. induction pre as [| q pre' IH]; cbn [app map_outcome].
  - rewrite Ha. reflexivity.
  - destruct (Hpre q) as [y Hy]; [left |]. rewrite Hy. cbn [mbind outcome_bind].
    rewrite IH by (intros; apply Hpre; right; assumption). reflexivity.
Qed.

Lemma fused_port_returns_on_empty_layout g p :
  wf g = true -> wf_input g (S (source p).1) p = true ->
  is_supported_transpose g (source p) = Ok false \/ get_layout (in_port p) = [] ->
  returns (fused_port g p).
Proof.
  intros Hwf Hp H.
  destruct (is_supported_transpose_returns g (source p) Hwf) as [[|] Hok].
  { apply wf_input_spec in Hp as (_ & src & Hsrc & _). eapply lookup_lt_Some. exact Hsrc. }
  - destruct H as [H | Hl]; [congruence |].
    destruct (fused_port_eval g p Hwf Hok) as (x & data & vd & _ & _ & Heq).
    rewrite Heq, Hl. destruct (cast_vector_size_t data); eexists; reflexivity.
  - unfold fused_port. rewrite Hok. eexists. reflexivity.
Qed.

End RankMismatch.

(** X12.  A rank that does not fit stops the fusion of an input.  When
    an input of the matched Brgemm is produced by an eligible transpose and
    its port carries a non-empty layout whose size differs from the size of
    the order, and the inputs before it are not fused or carry no layout,
    the callback stops in the first assertion of the composer and returns
    no graph. *)
Theorem callback_input_rank_mismatch
    (infer_output_shape : Node -> list VectorDims -> outcome VectorDims)
    (g : Graph) (m : Output) (root : Node) (pre post : list InputPort) (p : InputPort)
    (data : list Z) :
  wf g = true -> g !! m.1 = Some root -> op root = Brgemm ->
  inputs root = pre ++ p :: post ->
  (forall q, q ∈ pre ->
     is_supported_transpose g (source q) = Ok false \/ get_layout (in_port q) = []) ->
  is_supported_transpose g (source p) = Ok true ->
  transpose_order g (source p).1 = Some data ->
  get_layout (in_port p) <> [] -> length (get_layout (in_port p)) <> length data ->
  callback infer_output_shape g m = AssertionFailed msg_equal_ranks.
Proof.
  intros Hwf Hroot Hop Hin Hpre Hok Hord Hne Hlen. unfold callback.
  assert (E1 : get_node g m.1 = Ok root) by (apply get_node_Ok; exact Hroot).
  apply is_brgemm_op in Hop. rewrite E1. cbn [mbind outcome_bind]. rewrite Hop.
  cbn [mbind outcome_bind].
  rewrite (fuse_inputs_spec m.1 g g root Hwf (agree_below_refl _ _) Hroot)
    by (intros q Hq; eapply wf_sources_below; eassumption).
  rewrite Hin. rewrite (map_outcome_stops _ pre post p msg_equal_ranks); [reflexivity | |].
  - intros q Hq. apply (fused_port_returns_on_empty_layout g q Hwf); [| apply Hpre; exact Hq].
    assert (Hqin : q ∈ inputs root) by (rewrite Hin; apply elem_of_app; left; exact Hq).
    pose proof (wf_node_inputs g m.1 root q Hwf Hroot Hqin) as Hw.
    apply wf_input_spec in Hw as [_ Hsrc]. apply wf_input_spec. split; [lia | exact Hsrc].
  - destruct (fused_port_eval g p Hwf Hok) as (x & data' & vd & Hord' & Helig & Heq).
    rewrite Hord in Hord'. injection Hord' as <-. rewrite Heq.
    rewrite fuse_layouts_size_mismatch; [reflexivity | | exact Hne |].
    + apply order_nonempty. exact Helig.
    + rewrite cast_vector_size_t_length. congruence.
Qed.

Lemma callback_input_rank_mismatch_witness :
  callback Samples.keep_shape MoreSamples.input_rank_mismatch (3%nat, 0%nat)
  = AssertionFailed msg_equal_ranks.
Proof.
  apply (callback_input_rank_mismatch Samples.keep_shape MoreSamples.input_rank_mismatch
           (3%nat, 0%nat)
           (mkNode Brgemm [mkIn (2%nat, 0%nat) (mkPort [8; 4; 16]%N [0; 1]%N);
                           Samples.consumes 0 [4; 8; 16]%N]
                   (Samples.produces [8; 4; 4]%N))
           [] [Samples.consumes 0 [4; 8; 16]%N]
           (mkIn (2%nat, 0%nat) (mkPort [8; 4; 16]%N [0; 1]%N)) [1; 0; 2]).
  - reflexivity.
  - reflexivity.
  - reflexivity.
  - reflexivity.
  - intros q Hq. inversion Hq.
  - reflexivity.
  - reflexivity.
  - discriminate.
  - simpl. lia.
Defined.

(** X13.  A rank that does not fit stops the fusion on the output.  When
    the matched root is an eligible Transpose on the output of a Brgemm
    whose output port carries a non-empty layout of another size than the
    order, the callback stops in the first assertion of the composer and
    returns no graph. *)
Theorem callback_output_rank_mismatch
    (infer_output_shape : Node -> list VectorDims -> outcome VectorDims)
    (g : Graph) (root : node_id) (brgemm : node_id) (old : OutputPort) (data : list Z) :
  wf g = true -> m_transpose2 g (root, 0%nat) = true ->
  matched_brgemm g (root, 0%nat) = Some brgemm ->
  output_port g (brgemm, 0%nat) = Some old ->
  transpose_order g root = Some data ->
  get_layout (out_port old) <> [] -> length (get_layout (out_port old)) <> length data ->
  callback infer_output_shape g (root, 0%nat) = AssertionFailed msg_equal_ranks.
Proof.
  intros Hwf Hm Hmb Hold Hord Hne Hlen.
  destruct (m_transpose2_inv g _ Hm)
    as (rnd & a & c & bn & cn & data' & Hroot & Hop & Hin & Hbn & Hopb & Hcn & Hdata & _ & Helig).
  cbn [fst] in Hroot.
  assert (Hnb : is_brgemm rnd = false).
  { unfold is_brgemm. rewrite Hop. reflexivity. }
  unfold matched_brgemm in Hmb. cbn [fst] in Hmb. rewrite Hroot in Hmb. cbn in Hmb.
  rewrite Hnb, Hin in Hmb. cbn in Hmb. injection Hmb as <-.
  unfold output_port in Hold. cbn [fst snd] in Hold. rewrite Hbn in Hold. cbn in Hold.
  destruct (transpose_order_inv g root data Hord) as (tr & c' & cn' & Htr & _ & Hc' & Hcn' & Hdata'').
  rewrite Hroot in Htr. injection Htr as <-. rewrite Hin in Hc'. injection Hc' as <-.
  rewrite Hcn in Hcn'. injection Hcn' as <-. rewrite Hdata in Hdata''. injection Hdata'' as <-.
  destruct (wf_transpose g _ rnd Hwf Hroot Hop) as (? & ? & o & _ & Hout).
  assert (E1 : get_node g root = Ok rnd) by (apply get_node_Ok; exact Hroot).
  assert (E2 : input_value rnd 0 = Ok (source a)).
  { apply input_value_Ok. exists a. rewrite Hin. auto. }
  assert (E3 : get_node g (source a).1 = Ok bn) by (apply get_node_Ok; exact Hbn).
  assert (E4 : is_brgemm bn = true) by (apply is_brgemm_op; exact Hopb).
  assert (E5 : get_input_node g rnd 1 = Ok cn).
  { apply get_input_node_Ok. exists c. rewrite Hin. auto. }
  assert (E6 : as_constant cn = Some data') by (apply as_constant_op; exact Hdata).
  assert (E7 : get_vdims g (root, 0%nat) = Ok (tensor_shape o)).
  { apply get_vdims_Ok. unfold output_port. cbn [fst snd]. rewrite Hroot. cbn.
    rewrite Hout. reflexivity. }
  assert (Hfo : fuse_output g (root, 0%nat) = AssertionFailed msg_equal_ranks).
  { unfold fuse_output. cbn [fst]. rewrite E1. cbn [mbind outcome_bind].
    rewrite E2. cbn [mbind outcome_bind]. rewrite E3. cbn [mbind outcome_bind].
    rewrite E4. cbn [negb]. rewrite E5. cbn [fmap outcome_fmap mbind outcome_bind].
    rewrite Hold. cbn [deref fmap outcome_fmap mbind outcome_bind].
    rewrite E7. cbn [mbind outcome_bind]. rewrite E6.
    cbn [deref fmap outcome_fmap mbind outcome_bind].
    rewrite fuse_layouts_size_mismatch; [reflexivity | exact Hne | |].
    - apply order_nonempty. exact Helig.
    - rewrite cast_vector_size_t_length. exact Hlen. }
  unfold callback. cbn [fst]. rewrite E1. cbn [mbind outcome_bind]. rewrite Hnb, Hfo. reflexivity.
Qed.

Lemma callback_output_rank_mismatch_witness :
  callback Samples.keep_shape MoreSamples.output_rank_mismatch (4%nat, 0%nat)
  = AssertionFailed msg_equal_ranks.
Proof.
  apply (callback_output_rank_mismatch Samples.keep_shape MoreSamples.output_rank_mismatch
           4%nat 2%nat (mkOut [8; 4; 16]%N (mkPort [8; 4; 16]%N [1; 0]%N)) [1; 0; 2]).
  - reflexivity.
  - vm_compute. reflexivity.
  - reflexivity.
  - reflexivity.
  - reflexivity.
  - discriminate.
  - simpl. lia.
Defined.

(** X14.  The input loop does its work in one call.  After a call on a
    Brgemm that returned, a second call on the same Brgemm fuses nothing
    and only revalidates, unless a fused transpose was itself fed by an
    eligible transpose. *)
Theorem callback_again_revalidates
    (infer_output_shape : Node -> list VectorDims -> outcome VectorDims)
    (g : Graph) (m : Output) (root : Node) (r : bool) (g1 : Graph) :
  wf g = true -> g !! m.1 = Some root -> op root = Brgemm ->
  callback infer_output_shape g m = Ok (r, g1) ->
  (forall p x, p ∈ inputs root -> is_supported_transpose g (source p) = Ok true ->
     transpose_data g (source p).1 = Some x -> is_supported_transpose g x = Ok false) ->
  callback infer_output_shape g1 m
  = (g' ← validate_and_infer_types infer_output_shape m.1 g1; Ok (true, g')).
Proof.
  intros Hwf Hroot Hop H Hchain.
  pose proof (callback_wf infer_output_shape g m r g1 Hwf H) as Hwf1.
  destruct (callback_nodes_matched infer_output_shape g m r g1 Hwf H)
    as (b & bn & ps & outs' & root' & redir & _ & Hbn & _ & Hroot' & Hps & _ & Hb' & Hother & Hredir).
  rewrite Hroot in Hroot'. injection Hroot' as <-.
  destruct redir; [destruct Hredir as (Hx & _); congruence |]. subst b.
  rewrite Hroot in Hbn. injection Hbn as <-.
  assert (Hag : agree_below m.1 g g1).
  { intros n Hn. rewrite (Hother n) by lia. destruct (g !! n); reflexivity. }
  apply (callback_revalidates_only infer_output_shape g1 m _ Hwf1 Hb'); [reflexivity |].
  cbn [inputs]. intros p' Hp'. apply list_elem_of_lookup in Hp' as [i Hi].
  apply map_outcome_Forall2 in Hps.
  destruct (Forall2_lookup_r _ _ _ _ _ Hps Hi) as (p & Hp & Hfp).
  assert (Hpin : p ∈ inputs root) by (apply list_elem_of_lookup; eauto).
  pose proof (wf_sources_below g m.1 root p Hwf Hroot Hpin) as Hlt.
  rewrite (is_supported_transpose_agree m.1 g g1 (source p') Hwf Hag)
    by (apply (fused_port_source_below g p p' m.1 Hwf Hfp Hlt)).
  destruct (fused_port_inv g p p' Hwf Hfp)
    as [[Hs ->] | [Hs (tr & x & c & cn & data & vd & L & Htr & Hoptr & Hin & _ & _ & _ & _ & ->)]];
    [exact Hs |].
  cbn. apply (Hchain p (source x) Hpin Hs).
  unfold transpose_data. rewrite Htr. cbn. apply is_transpose_op in Hoptr.
  rewrite Hoptr, Hin. reflexivity.
Qed.

Lemma callback_again_revalidates_witness :
  let g := Samples.both_inputs_transposed in
  let g1 := Samples.graph_after (callback Samples.keep_shape g (6%nat, 0%nat)) in
  callback Samples.keep_shape g1 (6%nat, 0%nat)
  = (g' ← validate_and_infer_types Samples.keep_shape 6%nat g1; Ok (true, g')).
Proof.
  intros g g1.
  apply (callback_again_revalidates Samples.keep_shape g (6%nat, 0%nat)
           (mkNode Brgemm [Samples.consumes 2 [8; 4; 16]%N; Samples.consumes 5 [8; 16; 32]%N]
                   (Samples.produces [8; 4; 32]%N)) true g1).
  - reflexivity.
  - reflexivity.
  - reflexivity.
  - reflexivity.
  - intros p x Hp _ Hx. apply list_elem_of_In in Hp. simpl in Hp.
    destruct Hp as [<- | [<- | []]]; vm_compute in Hx; injection Hx as <-; reflexivity.
Defined.

(** * The two fusions, entry by entry *)

(** ** The entries of a composed layout *)

Section Entries.


Lemma fuse_layouts_nil_r (l : list N) : fuse_layouts l [] = Ok l.
Proof. destruct l; reflexivity. Qed.

(** What the loop of lines 81-85 has written when the composer returned
    on two non-empty vectors: entry [k] of the result is the entry of
    [layout_1] at the position that entry [k] of [layout_2] names. *)
Lemma fuse_layouts_entries (layout_1 layout_2 fused : list N) :
  layout_1 <> [] -> layout_2 <> [] -> fuse_layouts layout_1 layout_2 = Ok fused ->
  length layout_1 = length layout_2 /\ length fused = length layout_2
  /\ forall (k : nat) (j : N), layout_2 !! k = Some j ->
       exists v, layout_1 !! N.to_nat j = Some v /\ fused !! k = Some v.
Proof.
  intros H1 H2 H.
  destruct (fuse_layouts_Ok_inv _ _ _ H1 H2 H) as (Hlen & Hr & ->).
  split; [exact Hlen |]. split; [apply length_fmap |].
  intros k j Hk. exists (at_index layout_1 j). split.
  - apply lookup_at_index, Hr, list_elem_of_lookup. exists k. exact Hk.
  - rewrite list_lookup_fmap, Hk. reflexivity.
Qed.

(** The order of a transpose that [is_supported_transpose] accepts passes
    the check of lines 42-45. *)
Lemma supported_order g (v : Output) tr x c cn data :
  is_supported_transpose g v = Ok true ->
  g !! v.1 = Some tr -> inputs tr = [x; c] ->
  g !! (source c).1 = Some cn -> op cn = Constant data ->
  is_supported_transpose_order (cast_vector_int32 data) = true.
Proof.
  intros H Htr Hin Hcn Hdata. unfold is_supported_transpose in H.
  assert (E1 : get_node g v.1 = Ok tr) by (apply get_node_Ok; exact Htr).
  rewrite E1 in H. cbn [mbind outcome_bind] in H.
  destruct (negb (is_transpose tr)); [discriminate |].
  assert (E2 : get_input_node g tr 1 = Ok cn).
  { apply get_input_node_Ok. exists c. rewrite Hin. auto. }
  rewrite E2 in H. cbn [mbind outcome_bind] in H.
  unfold as_constant in H. rewrite Hdata in H. injection H as H. exact H.
Qed.


End Entries.

(** ** The fusion on the inputs *)

(** C1.  After the callback has returned, every input of the Brgemm
    that an eligible transpose produced consumes the data input of that
    transpose, and its port descriptor holds the shape of that data input
    and the composition of the order of the transpose, as outer, with the
    layout the port had, as inner: the order itself when the port had no
    layout, and otherwise the vector of the same size whose entry [k] is
    the entry of the order at the position that entry [k] of the previous
    layout names.  This is [1, 0, 2] for the order [1, 0, 2] and no
    previous layout, and [2, 1, 0] for the order [1, 0, 2] and the previous
    layout [2, 0, 1].  All inputs are treated in the one call, and an
    input that no eligible transpose produced is left as it was. *)
Theorem callback_fuses_inputs
    (infer_output_shape : Node -> list VectorDims -> outcome VectorDims)
    (g : Graph) (m : Output) (r : bool) (g' : Graph) :
  wf g = true -> callback infer_output_shape g m = Ok (r, g') ->
  exists brgemm,
    matched_brgemm g m = Some brgemm /\ r = true
    /\ forall (i : nat) (p : InputPort), input_port g (brgemm, i) = Some p ->
         (is_supported_transpose g (source p) = Ok true ->
          exists tr x c cn data p',
            g !! (source p).1 = Some tr /\ op tr = Transpose /\ inputs tr = [x; c]
            /\ g !! (source c).1 = Some cn /\ op cn = Constant data
            /\ input_port g' (brgemm, i) = Some p'
            /\ source p' = source x
            /\ get_vdims g (source x) = Ok (get_shape (in_port p'))
            /\ fuse_layouts (cast_vector_size_t data) (get_layout (in_port p))
               = Ok (get_layout (in_port p'))
            /\ (get_layout (in_port p) = [] ->
                get_layout (in_port p') = cast_vector_size_t data)
            /\ (get_layout (in_port p) <> [] ->
                length (get_layout (in_port p)) = length data
                /\ length (get_layout (in_port p')) = length data
                /\ forall (k : nat) (j : N), get_layout (in_port p) !! k = Some j ->
                     exists v, cast_vector_size_t data !! N.to_nat j = Some v
                               /\ get_layout (in_port p') !! k = Some v)
            /\ (data = [1; 0; 2] -> get_layout (in_port p) = [] ->
                get_layout (in_port p') = [1; 0; 2]%N)
            /\ (data = [1; 0; 2] -> get_layout (in_port p) = [2; 0; 1]%N ->
                get_layout (in_port p') = [2; 1; 0]%N))
         /\ (is_supported_transpose g (source p) = Ok false ->
             input_port g' (brgemm, i) = Some p).
Proof.
  intros Hwf H.
  destruct (callback_inv infer_output_shape g m r g' Hwf H)
    as (b & bn & g1 & nd1 & ps & s & root & Hm & Hbn & Hop & Hroot & Hcase & Hb1 & Hin1 & Hps & -> & ->).
  exists b. split; [exact Hm |]. split; [reflexivity |].
  intros i p Hp. unfold input_port in Hp. cbn [fst snd] in Hp. rewrite Hbn in Hp. cbn in Hp.
  destruct (map_outcome_lookup _ _ _ _ _ Hps Hp) as (p' & Hp' & Hfp).
  assert (Hfinal : input_port (set_tensor_shape (<[b := on_inputs (fun _ => ps) nd1]> g1) (b, 0%nat) s) (b, i)
                   = Some p').
  { unfold input_port. cbn [fst snd]. rewrite (final_lookup_brgemm _ _ _ _ _ Hb1). exact Hp'. }
  destruct (fused_port_inv g p p' Hwf Hfp)
    as [[Hs ->] | [Hs (tr & x & c & cn & data & vd & L & Htr & Hoptr & Hin & Hcn & Hdata & Hvd & HL & ->)]].
  - split; [rewrite Hs; discriminate | intros _; exact Hfinal].
  - split; [intros _ | rewrite Hs; discriminate].
    pose proof (order_nonempty data (supported_order g _ tr x c cn data Hs Htr Hin Hcn Hdata))
      as Hne.
    exists tr, x, c, cn, data, (mkIn (source x) (mkPort vd L)).
    repeat (split; [assumption || reflexivity |]). cbn.
    split; [| split; [| split]].
    + intros Hl. rewrite Hl, fuse_layouts_nil_r in HL. injection HL as <-. reflexivity.
    + intros Hl. destruct (fuse_layouts_entries _ _ _ Hne Hl HL) as (Hlen & HlenL & Hent).
      rewrite cast_vector_size_t_length in Hlen. rewrite <- Hlen in HlenL |- *. auto.
    + intros -> Hl. rewrite Hl in HL. cbn in HL. injection HL as <-. reflexivity.
    + intros -> Hl. rewrite Hl in HL. vm_compute in HL. injection HL as <-. reflexivity.
Qed.

(** The first input of the sample carries the layout [2, 0, 1]: after the
    call it consumes the parameter, with the shape of the parameter and the
    layout [2, 1, 0]; the second input had no layout and gets the order. *)
Example input_with_layout_fused :
  let g := LayoutSamples.input_with_layout in
  let g' := Samples.graph_after (callback Samples.keep_shape g (6%nat, 0%nat)) in
  input_port g (6%nat, 0%nat) = Some (mkIn (2%nat, 0%nat) (mkPort [8; 4; 16]%N [2; 0; 1]%N))
  /\ input_port g' (6%nat, 0%nat) = Some (mkIn (0%nat, 0%nat) (mkPort [4; 8; 16]%N [2; 1; 0]%N))
  /\ input_port g' (6%nat, 1%nat) = Some (mkIn (3%nat, 0%nat) (mkPort [16; 8; 32]%N [1; 0; 2]%N)).
Proof. repeat split. Qed.

Lemma callback_fuses_inputs_witness :
  let g := LayoutSamples.input_with_layout in
  let g' := Samples.graph_after (callback Samples.keep_shape g (6%nat, 0%nat)) in
  exists brgemm,
    matched_brgemm g (6%nat, 0%nat) = Some brgemm /\ true = true
    /\ forall (i : nat) (p : InputPort), input_port g (brgemm, i) = Some p ->
         (is_supported_transpose g (source p) = Ok true ->
          exists tr x c cn data p',
            g !! (source p).1 = Some tr /\ op tr = Transpose /\ inputs tr = [x; c]
            /\ g !! (source c).1 = Some cn /\ op cn = Constant data
            /\ input_port g' (brgemm, i) = Some p'
            /\ source p' = source x
            /\ get_vdims g (source x) = Ok (get_shape (in_port p'))
            /\ fuse_layouts (cast_vector_size_t data) (get_layout (in_port p))
               = Ok (get_layout (in_port p'))
            /\ (get_layout (in_port p) = [] ->
                get_layout (in_port p') = cast_vector_size_t data)
            /\ (get_layout (in_port p) <> [] ->
                length (get_layout (in_port p)) = length data
                /\ length (get_layout (in_port p')) = length data
                /\ forall (k : nat) (j : N), get_layout (in_port p) !! k = Some j ->
                     exists v, cast_vector_size_t data !! N.to_nat j = Some v
                               /\ get_layout (in_port p') !! k = Some v)
            /\ (data = [1; 0; 2] -> get_layout (in_port p) = [] ->
                get_layout (in_port p') = [1; 0; 2]%N)
            /\ (data = [1; 0; 2] -> get_layout (in_port p) = [2; 0; 1]%N ->
                get_layout (in_port p') = [2; 1; 0]%N))
         /\ (is_supported_transpose g (source p) = Ok false ->
             input_port g' (brgemm, i) = Some p).
Proof.
  intros g g'.
  apply (callback_fuses_inputs Samples.keep_shape g (6%nat, 0%nat) true g').
  - reflexivity.
  - reflexivity.
Defined.

(** ** The fusion on the output *)


(** The example of the specification: the output of the Brgemm (node 2)
    has the shape [8, 4, 16] and no layout, and the Transpose (node 4) has
    the order [0, 2, 1].  The call on the Transpose returns; the descriptor
    then holds the shape [8, 16, 4] and the layout [0, 2, 1], the two
    consumers of the Transpose consume the Brgemm, and the Transpose, in
    use before the call, is not in use after it. *)
Example output_021_fused :
  let g := Samples.output_transposed_021 in
  let g' := Samples.graph_after (callback Samples.keep_shape g (4%nat, 0%nat)) in
  out_port <$> output_port g (2%nat, 0%nat) = Some (mkPort [8; 4; 16]%N [])
  /\ (exists g'', callback Samples.keep_shape g (4%nat, 0%nat) = Ok (true, g''))
  /\ out_port <$> output_port g' (2%nat, 0%nat) = Some (mkPort [8; 16; 4]%N [0; 2; 1]%N)
  /\ source <$> input_port g' (5%nat, 0%nat) = Some (2%nat, 0%nat)
  /\ source <$> input_port g' (7%nat, 0%nat) = Some (2%nat, 0%nat)
  /\ is_live g 4%nat = true /\ is_live g' 4%nat = false.
Proof. repeat split. eexists. reflexivity. Qed.

(** The output of the Brgemm carries the layout [0, 2, 1]: after the call
    on the Transpose of order [1, 0, 2] it carries [2, 0, 1], with the
    shape of the output of the Transpose. *)
Example output_with_layout_fused :
  let g := LayoutSamples.output_with_layout in
  let g' := Samples.graph_after (callback Samples.keep_shape g (4%nat, 0%nat)) in
  out_port <$> output_port g (2%nat, 0%nat) = Some (mkPort [8; 4; 16]%N [0; 2; 1]%N)
  /\ out_port <$> output_port g' (2%nat, 0%nat) = Some (mkPort [4; 8; 16]%N [2; 0; 1]%N)
  /\ is_live g' 4%nat = false.
Proof. repeat split. Qed.


(** ** Orders that are not permutations of the rank of the shape *)

